(** * Adjudication rules engine: rule service, rule endpoints and evaluator

    A shallow embedding of [backend/app/services/rule_service.py],
    [backend/app/models/rule.py], [backend/app/schemas/rule.py] and of the
    rule endpoints in [backend/app/api/v1/endpoints/rules.py].

    Python values that reach the evaluator are JSON values (the
    [condition_logic] column is JSONB and the claim context is a dict of
    claim data); they are embedded as the type [value] below together with
    the fragment of Python's semantics the evaluator uses on them:
    truthiness, [==], [<] and [>], [in], [dict.get] and iteration.
    Floating point numbers are outside the embedding. *)

From Stdlib Require Import ZArith NArith List String Ascii Bool Lia.
From Stdlib Require Import Permutation Sorted DecimalString.
Import ListNotations.
Local Open Scope string_scope.
Local Open Scope Z_scope.
Set Warnings "-register-all".

(** ** Exceptions and the error monad *)

Inductive exn : Type :=
| TypeError
| AttributeError
| IntegrityError.

Inductive res (A : Type) : Type :=
| Ok (a : A)
| Raise (e : exn).
Arguments Ok {A} a.
Arguments Raise {A} e.

Definition bind {A B : Type} (m : res A) (k : A -> res B) : res B :=
  match m with
  | Ok a => k a
  | Raise e => Raise e
  end.

Notation "x <- m ;; k" := (bind m (fun x => k))
  (at level 61, m at next level, right associativity).

Fixpoint mapM {A B : Type} (f : A -> res B) (l : list A) : res (list B) :=
  match l with
  | [] => Ok []
  | a :: l' => b <- f a ;; bs <- mapM f l' ;; Ok (b :: bs)
  end.

(** ** Python values *)

Module Py.

Inductive value : Type :=
| VNone
| VBool (b : bool)
| VInt (z : Z)
| VStr (s : string)
| VList (l : list value)
| VDict (d : list (string * value)).

(** [bool(v)]: what [if v] and [not v] test. *)
Definition truthy (v : value) : bool :=
  match v with
  | VNone => false
  | VBool b => b
  | VInt z => negb (z =? 0)
  | VStr s => negb (s =? "")%string
  | VList l => match l with [] => false | _ :: _ => true end
  | VDict d => match d with [] => false | _ :: _ => true end
  end.

(** [bool] is a subclass of [int]: both compare as numbers. *)
Definition as_num (v : value) : option Z :=
  match v with
  | VBool b => Some (Z.b2z b)
  | VInt z => Some z
  | _ => None
  end.

Fixpoint lookup {A : Type} (k : string) (d : list (string * A)) : option A :=
  match d with
  | [] => None
  | (k', v) :: d' => if (k =? k')%string then Some v else lookup k d'
  end.

(** [a == b]. *)
Fixpoint eq (a b : value) {struct a} : bool :=
  match a, b with
  | VNone, VNone => true
  | VBool x, VBool y => Bool.eqb x y
  | VBool x, VInt y => Z.b2z x =? y
  | VInt x, VBool y => x =? Z.b2z y
  | VInt x, VInt y => x =? y
  | VStr s, VStr t => (s =? t)%string
  | VList xs, VList ys =>
      (fix go (xs ys : list value) {struct xs} : bool :=
         match xs, ys with
         | [], [] => true
         | x :: xs', y :: ys' => eq x y && go xs' ys'
         | _, _ => false
         end) xs ys
  | VDict d1, VDict d2 =>
      (List.length d1 =? List.length d2)%nat &&
      (fix go (d : list (string * value)) {struct d} : bool :=
         match d with
         | [] => true
         | (k, v) :: d' =>
             match lookup k d2 with
             | Some v' => eq v v'
             | None => false
             end && go d'
         end) d1
  | _, _ => false
  end.

Inductive order_op : Type := OpLt | OpGt.

Definition num_order (op : order_op) (x y : Z) : bool :=
  match op with
  | OpLt => x <? y
  | OpGt => x >? y
  end.

Definition str_order (op : order_op) (s t : string) : bool :=
  match op with
  | OpLt => String.ltb s t
  | OpGt => String.ltb t s
  end.

Definition len_order (op : order_op) (n m : nat) : bool :=
  match op with
  | OpLt => (n <? m)%nat
  | OpGt => (m <? n)%nat
  end.

(** [a < b] and [a > b]: numbers with numbers, strings with strings, lists
    with lists at their first differing position; every other pairing
    raises [TypeError]. *)
Fixpoint order (op : order_op) (a b : value) {struct a} : res bool :=
  match a, b with
  | VStr s, VStr t => Ok (str_order op s t)
  | VList xs, VList ys =>
      (fix go (xs ys : list value) {struct xs} : res bool :=
         match xs, ys with
         | x :: xs', y :: ys' =>
             if eq x y then go xs' ys' else order op x y
         | _, _ => Ok (len_order op (List.length xs) (List.length ys))
         end) xs ys
  | _, _ =>
      match as_num a, as_num b with
      | Some x, Some y => Ok (num_order op x y)
      | _, _ => Raise TypeError
      end
  end.

Fixpoint is_substring (t s : string) {struct s} : bool :=
  String.prefix t s ||
  match s with
  | EmptyString => false
  | String _ s' => is_substring t s'
  end.

Definition hashable (v : value) : bool :=
  match v with
  | VList _ | VDict _ => false
  | _ => true
  end.

(** [x in c]. *)
Definition contains (x c : value) : res bool :=
  match c with
  | VStr s =>
      match x with
      | VStr t => Ok (is_substring t s)
      | _ => Raise TypeError
      end
  | VList l => Ok (existsb (eq x) l)
  | VDict d =>
      if hashable x then
        Ok (match x with
            | VStr k => match lookup k d with Some _ => true | None => false end
            | _ => false
            end)
      else Raise TypeError
  | _ => Raise TypeError
  end.

(** [v.get(key, default)]: only dicts have the method. *)
Definition get (v : value) (key : string) (default : value) : res value :=
  match v with
  | VDict d =>
      Ok (match lookup key d with Some x => x | None => default end)
  | _ => Raise AttributeError
  end.

(** [for x in v]: the elements the loop visits. *)
Definition iter (v : value) : res (list value) :=
  match v with
  | VList l => Ok l
  | VStr s => Ok (map (fun c => VStr (String c EmptyString)) (list_ascii_of_string s))
  | VDict d => Ok (map (fun kv => VStr (fst kv)) d)
  | _ => Raise TypeError
  end.

Definition is_str (v : value) (s : string) : bool :=
  match v with
  | VStr t => (t =? s)%string
  | _ => false
  end.

End Py.

Import Py.

(** The claim context: a dict with string keys. *)
Definition context : Type := list (string * value).

(** [context.get(field)]: a key that is not a string is either unhashable
    ([TypeError]) or simply not a key of the dict. *)
Definition context_get (ctx : context) (field : value) : res value :=
  match field with
  | VStr k => Ok (match lookup k ctx with Some v => v | None => VNone end)
  | VList _ | VDict _ => Raise TypeError
  | _ => Ok VNone
  end.

(** ** The evaluator: [RuleService._evaluate_conditions] *)

(** One iteration of the loop over [rules]: the value appended to
    [results]. *)
Definition evaluate_comparison (rule : value) (ctx : context) : res bool :=
  field <- get rule "field" VNone ;;
  op <- get rule "operator" VNone ;;
  value <- get rule "value" VNone ;;
  context_value <- context_get ctx field ;;
  if is_str op "equals" then Ok (eq context_value value)
  else if is_str op "not_equals" then Ok (negb (eq context_value value))
  else if is_str op "greater_than" then
    if truthy context_value then order OpGt context_value value else Ok false
  else if is_str op "less_than" then
    if truthy context_value then order OpLt context_value value else Ok false
  else if is_str op "contains" then
    if truthy context_value then contains value context_value else Ok false
  else if is_str op "in" then
    if truthy context_value then contains context_value value else Ok false
  else Ok false.

Definition _evaluate_conditions (conditions : value) (ctx : context) : res bool :=
  if negb (truthy conditions) then Ok false
  else
    operator <- get conditions "operator" (VStr "and") ;;
    rules <- get conditions "rules" (VList []) ;;
    if negb (truthy rules) then Ok false
    else
      items <- iter rules ;;
      results <- mapM (fun rule => evaluate_comparison rule ctx) items ;;
      if is_str operator "and" then Ok (forallb (fun b => b) results)
      else if is_str operator "or" then Ok (existsb (fun b => b) results)
      else Ok false.

(** ** The data model: [models/rule.py] and [schemas/rule.py] *)

(** Primary keys are UUIDs; the embedding draws them from a counter kept in
    the store, so a new row always gets an id no row has had before. *)
Definition UUID : Type := N.

(** Instants, as seconds since the epoch. *)
Definition datetime : Type := Z.

Inductive RuleType : Type :=
| VALIDATION
| ADJUDICATION
| CALCULATION
| NOTIFICATION.

Inductive ActionType : Type :=
| APPROVE
| DENY
| FLAG
| CALCULATE
| NOTIFY
| TRANSFORM.

Definition RuleType_eqb (a b : RuleType) : bool :=
  match a, b with
  | VALIDATION, VALIDATION | ADJUDICATION, ADJUDICATION
  | CALCULATION, CALCULATION | NOTIFICATION, NOTIFICATION => true
  | _, _ => false
  end.

Definition ActionType_eqb (a b : ActionType) : bool :=
  match a, b with
  | APPROVE, APPROVE | DENY, DENY | FLAG, FLAG
  | CALCULATE, CALCULATE | NOTIFY, NOTIFY | TRANSFORM, TRANSFORM => true
  | _, _ => false
  end.

Module Rule.
Record t : Type := mk {
  id : UUID;
  rule_name : string;
  rule_code : string;
  description : option string;
  rule_type : RuleType;
  action_type : ActionType;
  condition_logic : value;
  priority : Z;
  is_active : bool;
  effective_from : option datetime;
  effective_to : option datetime;
  denial_reason_template : option string;
  flag_reason_template : option string;
  category : option string;
  tags : list string;
  created_by : option UUID;
  last_modified_by : option UUID
}.
End Rule.

Module RuleVersion.
Record t : Type := mk {
  id : UUID;
  rule_id : UUID;
  version_number : Z;
  rule_name : string;
  rule_type : RuleType;
  action_type : ActionType;
  condition_logic : value;
  priority : Z;
  change_description : option string;
  effective_from : option datetime;
  created_by : option UUID
}.
End RuleVersion.

(** The request schema [schemas.rule.RuleCreate]; it declares no
    [is_active]. *)
Module RuleCreate.
Record t : Type := mk {
  rule_name : string;
  rule_code : string;
  description : option string;
  rule_type : RuleType;
  action_type : ActionType;
  condition_logic : value;
  priority : Z;
  effective_from : option datetime;
  effective_to : option datetime;
  denial_reason_template : option string;
  flag_reason_template : option string;
  category : option string;
  tags : option (list string)
}.
End RuleCreate.

Module RuleUpdate.
Record t : Type := mk {
  rule_name : option string;
  description : option string;
  rule_type : option RuleType;
  action_type : option ActionType;
  condition_logic : option value;
  priority : option Z;
  is_active : option bool;
  effective_from : option datetime;
  effective_to : option datetime;
  denial_reason_template : option string;
  flag_reason_template : option string;
  category : option string;
  tags : option (list string);
  change_description : option string
}.
End RuleUpdate.

(** The request schema of a condition, [schemas.rule.ConditionLogic], and
    the dict it serialises to. *)
Inductive ConditionLogic : Type :=
| MkConditionLogic (type_ : string)
                   (conditions : option (list ConditionLogic))
                   (field : option string)
                   (operator : option string)
                   (value_ : option value).

Definition dump_option {A : Type} (f : A -> value) (o : option A) : value :=
  match o with
  | Some a => f a
  | None => VNone
  end.

Fixpoint model_dump (c : ConditionLogic) : value :=
  match c with
  | MkConditionLogic ty conds fld op v =>
      VDict [ ("type", VStr ty);
              ("conditions",
                match conds with
                | Some l => VList (map model_dump l)
                | None => VNone
                end);
              ("field", dump_option VStr fld);
              ("operator", dump_option VStr op);
              ("value", dump_option (fun x => x) v) ]
  end.

(** ** The database session *)

Record Store : Type := mkStore {
  rules : list Rule.t;
  rule_versions : list RuleVersion.t;
  next_uuid : UUID
}.

Definition empty_store : Store :=
  {| rules := []; rule_versions := []; next_uuid := 0%N |}.

(** [x if x is not None else d], and the assignment guarded by
    [if data.x is not None]. *)
Definition or_default {A : Type} (o : option A) (d : A) : A :=
  match o with
  | Some a => a
  | None => d
  end.

Definition or_keep {A : Type} (o old : option A) : option A :=
  match o with
  | Some a => Some a
  | None => old
  end.

(** ** [RuleService] *)

Definition get_by_id (rule_id : UUID) (st : Store) : option Rule.t :=
  find (fun r => (Rule.id r =? rule_id)%N) (rules st).

Definition get_by_code (rule_code : string) (st : Store) : option Rule.t :=
  find (fun r => (Rule.rule_code r =? rule_code)%string) (rules st).

Definition versions_of (rule_id : UUID) (st : Store) : list RuleVersion.t :=
  filter (fun v => (RuleVersion.rule_id v =? rule_id)%N) (rule_versions st).

(** [select max(...)]: NULL over no rows. *)
Definition sql_max (l : list Z) : option Z :=
  match l with
  | [] => None
  | x :: l' => Some (fold_left Z.max l' x)
  end.

(** [result.scalar() or 0]. *)
Definition max_version (rule_id : UUID) (st : Store) : Z :=
  match sql_max (map RuleVersion.version_number (versions_of rule_id st)) with
  | Some m => if m =? 0 then 0 else m
  | None => 0
  end.

Definition _create_version (rule : Rule.t) (created_by : UUID)
    (change_description : string) (st : Store) : RuleVersion.t * Store :=
  let version :=
    {| RuleVersion.id := next_uuid st;
       RuleVersion.rule_id := Rule.id rule;
       RuleVersion.version_number := max_version (Rule.id rule) st + 1;
       RuleVersion.rule_name := Rule.rule_name rule;
       RuleVersion.rule_type := Rule.rule_type rule;
       RuleVersion.action_type := Rule.action_type rule;
       RuleVersion.condition_logic := Rule.condition_logic rule;
       RuleVersion.priority := Rule.priority rule;
       RuleVersion.change_description := Some change_description;
       RuleVersion.effective_from := Rule.effective_from rule;
       RuleVersion.created_by := Some created_by |} in
  (version,
   {| rules := rules st;
      rule_versions := rule_versions st ++ [version];
      next_uuid := N.succ (next_uuid st) |}).

Definition prefix_map (rule_type : RuleType) : string :=
  match rule_type with
  | VALIDATION => "VAL"
  | ADJUDICATION => "ADJ"
  | CALCULATION => "CAL"
  | NOTIFICATION => "NOT"
  end.

Fixpoint zeros (n : nat) : string :=
  match n with
  | O => ""
  | S n' => String "0" (zeros n')
  end.

Definition zfill (width : nat) (s : string) : string :=
  zeros (width - String.length s) ++ s.

Definition str_of_N (n : N) : string :=
  NilZero.string_of_uint (N.to_uint n).

Definition _generate_rule_code (rule_type : RuleType) (st : Store) : string :=
  let prefix := prefix_map rule_type in
  let count :=
    List.length
      (filter (fun r => String.prefix (prefix ++ "-") (Rule.rule_code r))
              (rules st)) in
  prefix ++ "-" ++ zfill 4 (str_of_N (N.of_nat count + 1)).

(** [data.rule_code or await self._generate_rule_code(data.rule_type)]. *)
Definition code_for (data : RuleCreate.t) (st : Store) : string :=
  if (RuleCreate.rule_code data =? "")%string
  then _generate_rule_code (RuleCreate.rule_type data) st
  else RuleCreate.rule_code data.

(** [data.is_active], as [create] reads it: [RuleCreate] declares no such
    field, and reading an undeclared attribute of a pydantic model
    raises. *)
Definition RuleCreate_is_active (data : RuleCreate.t) : res (option bool) :=
  Raise AttributeError.

(** The [Rule(...)] row that [create] builds once its arguments are
    evaluated. *)
Definition new_rule (data : RuleCreate.t) (is_active : option bool)
    (created_by : UUID) (st : Store) : Rule.t :=
  {| Rule.id := next_uuid st;
     Rule.rule_name := RuleCreate.rule_name data;
     Rule.rule_code := code_for data st;
     Rule.description := RuleCreate.description data;
     Rule.rule_type := RuleCreate.rule_type data;
     Rule.action_type := RuleCreate.action_type data;
     Rule.condition_logic :=
       if truthy (RuleCreate.condition_logic data)
       then RuleCreate.condition_logic data else VDict [];
     Rule.priority :=
       if RuleCreate.priority data =? 0 then 100
       else RuleCreate.priority data;
     Rule.is_active := or_default is_active true;
     Rule.effective_from := RuleCreate.effective_from data;
     Rule.effective_to := RuleCreate.effective_to data;
     Rule.denial_reason_template := RuleCreate.denial_reason_template data;
     Rule.flag_reason_template := RuleCreate.flag_reason_template data;
     Rule.category := RuleCreate.category data;
     Rule.tags :=
       match RuleCreate.tags data with
       | Some (x :: l) => x :: l
       | _ => []
       end;
     Rule.created_by := Some created_by;
     Rule.last_modified_by := Some created_by |}.

(** [create]: the arguments of [Rule(...)] are evaluated first, among them
    [data.is_active]; then [db.add(rule); db.flush()], where the unique
    index on [rule_code] refuses a second row with the same code; then the
    initial version. *)
Definition create (data : RuleCreate.t) (created_by : UUID) (st : Store)
    : res (Rule.t * Store) :=
  is_active <- RuleCreate_is_active data ;;
  let rule := new_rule data is_active created_by st in
  match get_by_code (Rule.rule_code rule) st with
  | Some _ => Raise IntegrityError
  | None =>
      let st1 :=
        {| rules := rules st ++ [rule];
           rule_versions := rule_versions st;
           next_uuid := N.succ (next_uuid st) |} in
      let '(_, st2) := _create_version rule created_by "Initial version" st1 in
      Ok (rule, st2)
  end.

Definition apply_update (rule : Rule.t) (data : RuleUpdate.t)
    (modified_by : UUID) : Rule.t :=
  {| Rule.id := Rule.id rule;
     Rule.rule_name := or_default (RuleUpdate.rule_name data) (Rule.rule_name rule);
     Rule.rule_code := Rule.rule_code rule;
     Rule.description := or_keep (RuleUpdate.description data) (Rule.description rule);
     Rule.rule_type := or_default (RuleUpdate.rule_type data) (Rule.rule_type rule);
     Rule.action_type := or_default (RuleUpdate.action_type data) (Rule.action_type rule);
     Rule.condition_logic :=
       or_default (RuleUpdate.condition_logic data) (Rule.condition_logic rule);
     Rule.priority := or_default (RuleUpdate.priority data) (Rule.priority rule);
     Rule.is_active := or_default (RuleUpdate.is_active data) (Rule.is_active rule);
     Rule.effective_from :=
       or_keep (RuleUpdate.effective_from data) (Rule.effective_from rule);
     Rule.effective_to :=
       or_keep (RuleUpdate.effective_to data) (Rule.effective_to rule);
     Rule.denial_reason_template :=
       or_keep (RuleUpdate.denial_reason_template data)
               (Rule.denial_reason_template rule);
     Rule.flag_reason_template :=
       or_keep (RuleUpdate.flag_reason_template data)
               (Rule.flag_reason_template rule);
     Rule.category := or_keep (RuleUpdate.category data) (Rule.category rule);
     Rule.tags := or_default (RuleUpdate.tags data) (Rule.tags rule);
     Rule.created_by := Rule.created_by rule;
     Rule.last_modified_by := Some modified_by |}.

(** Writing a loaded row back: the row with the same primary key is
    replaced in place. *)
Definition write_rule (rule : Rule.t) (st : Store) : Store :=
  {| rules :=
       map (fun r => if (Rule.id r =? Rule.id rule)%N then rule else r)
           (rules st);
     rule_versions := rule_versions st;
     next_uuid := next_uuid st |}.

Definition update (rule_id : UUID) (data : RuleUpdate.t) (modified_by : UUID)
    (st : Store) : option Rule.t * Store :=
  match get_by_id rule_id st with
  | None => (None, st)
  | Some rule =>
      let rule' := apply_update rule data modified_by in
      let st1 := write_rule rule' st in
      let description :=
        match RuleUpdate.change_description data with
        | Some s => if (s =? "")%string then "Rule updated" else s
        | None => "Rule updated"
        end in
      let '(_, st2) := _create_version rule' modified_by description st1 in
      (Some rule', st2)
  end.

(** [db.delete(rule)]: the row goes, and with it, through the
    [cascade="all, delete-orphan"] of [Rule.versions], its versions. *)
Definition delete (rule_id : UUID) (st : Store) : bool * Store :=
  match get_by_id rule_id st with
  | None => (false, st)
  | Some rule =>
      (true,
       {| rules := filter (fun r => negb (Rule.id r =? Rule.id rule)%N) (rules st);
          rule_versions :=
            filter (fun v => negb (RuleVersion.rule_id v =? Rule.id rule)%N)
                   (rule_versions st);
          next_uuid := next_uuid st |})
  end.

Definition toggle_active (rule_id : UUID) (is_active : bool)
    (modified_by : UUID) (st : Store) : option Rule.t * Store :=
  match get_by_id rule_id st with
  | None => (None, st)
  | Some rule =>
      let rule' :=
        {| Rule.id := Rule.id rule;
           Rule.rule_name := Rule.rule_name rule;
           Rule.rule_code := Rule.rule_code rule;
           Rule.description := Rule.description rule;
           Rule.rule_type := Rule.rule_type rule;
           Rule.action_type := Rule.action_type rule;
           Rule.condition_logic := Rule.condition_logic rule;
           Rule.priority := Rule.priority rule;
           Rule.is_active := is_active;
           Rule.effective_from := Rule.effective_from rule;
           Rule.effective_to := Rule.effective_to rule;
           Rule.denial_reason_template := Rule.denial_reason_template rule;
           Rule.flag_reason_template := Rule.flag_reason_template rule;
           Rule.category := Rule.category rule;
           Rule.tags := Rule.tags rule;
           Rule.created_by := Rule.created_by rule;
           Rule.last_modified_by := Some modified_by |} in
      (Some rule', write_rule rule' st)
  end.

(** [get_versions]: newest first. *)
Fixpoint insert_version (v : RuleVersion.t) (l : list RuleVersion.t)
    : list RuleVersion.t :=
  match l with
  | [] => [v]
  | w :: l' =>
      if RuleVersion.version_number w <=? RuleVersion.version_number v
      then v :: l
      else w :: insert_version v l'
  end.

Definition get_versions (rule_id : UUID) (st : Store) : list RuleVersion.t :=
  fold_right insert_version [] (versions_of rule_id st).

(** [get_active_rules]: the instant is read from the clock ([utcnow]). *)
Definition in_window (now : datetime) (r : Rule.t) : bool :=
  match Rule.effective_from r with
  | None => true
  | Some t => t <=? now
  end &&
  match Rule.effective_to r with
  | None => true
  | Some t => now <=? t
  end.

Definition of_type (rule_type : option RuleType) (r : Rule.t) : bool :=
  match rule_type with
  | Some ty => RuleType_eqb (Rule.rule_type r) ty
  | None => true
  end.

Definition selected (now : datetime) (rule_type : option RuleType)
    (r : Rule.t) : bool :=
  Rule.is_active r && in_window now r && of_type rule_type r.

Fixpoint insert_by_priority (r : Rule.t) (l : list Rule.t) : list Rule.t :=
  match l with
  | [] => [r]
  | x :: l' =>
      if Rule.priority r <=? Rule.priority x then r :: l
      else x :: insert_by_priority r l'
  end.

Definition order_by_priority (l : list Rule.t) : list Rule.t :=
  fold_right insert_by_priority [] l.

(** The query orders by [priority] alone, so the order among rows of
    equal priority is the database's: it is the order in which the query
    happens to visit the selected rows, [scan], which may be any
    rearrangement of them and may differ from one query to the next. *)
Definition get_active_rules (scan : list Rule.t -> list Rule.t)
    (now : datetime) (rule_type : option RuleType) (st : Store)
    : list Rule.t :=
  order_by_priority (scan (filter (selected now rule_type) (rules st))).

(** [evaluate_rule]: the result dict. *)
Record Evaluation : Type := mkEvaluation {
  ev_rule_id : UUID;
  ev_rule_code : string;
  matched : bool;
  action : option ActionType;
  message : option string;
  error : option exn
}.

Definition evaluate_rule (rule : Rule.t) (ctx : context) : Evaluation :=
  match _evaluate_conditions (Rule.condition_logic rule) ctx with
  | Ok true =>
      {| ev_rule_id := Rule.id rule;
         ev_rule_code := Rule.rule_code rule;
         matched := true;
         action := Some (Rule.action_type rule);
         message :=
           match Rule.action_type rule with
           | DENY => Rule.denial_reason_template rule
           | FLAG => Rule.flag_reason_template rule
           | _ => None
           end;
         error := None |}
  | Ok false =>
      {| ev_rule_id := Rule.id rule;
         ev_rule_code := Rule.rule_code rule;
         matched := false;
         action := None;
         message := None;
         error := None |}
  | Raise e =>
      {| ev_rule_id := Rule.id rule;
         ev_rule_code := Rule.rule_code rule;
         matched := false;
         action := None;
         message := None;
         error := Some e |}
  end.

(** ** The endpoints of [api/v1/endpoints/rules.py]

    The entries the endpoints hand to [AuditService.log] go to the audit
    table, which is not part of the rule store. *)

Inductive UserRole : Type :=
| PROVIDER
| ADMIN
| ADJUDICATOR
| AUDITOR.

Record User : Type := mkUser {
  user_id : UUID;
  role : UserRole
}.

Inductive http (A : Type) : Type :=
| Response (a : A)
| HTTPException (status_code : nat) (detail : string)
| Unhandled (e : exn).
Arguments Response {A} a.
Arguments HTTPException {A} status_code detail.
Arguments Unhandled {A} e.

Definition is_admin (user : User) : bool :=
  match role user with
  | ADMIN => true
  | _ => false
  end.

Definition create_rule (rule_data : RuleCreate.t) (current_user : User)
    (st : Store) : http Rule.t * Store :=
  if negb (is_admin current_user)
  then (HTTPException 403 "Admin access required", st)
  else
    match get_by_code (RuleCreate.rule_code rule_data) st with
    | Some _ => (HTTPException 400 "Rule code already exists", st)
    | None =>
        match create rule_data (user_id current_user) st with
        | Ok (rule, st') => (Response rule, st')
        | Raise e => (Unhandled e, st)
        end
    end.

Definition update_rule (rule_id : UUID) (rule_data : RuleUpdate.t)
    (current_user : User) (st : Store) : http (option Rule.t) * Store :=
  if negb (is_admin current_user)
  then (HTTPException 403 "Admin access required", st)
  else
    match get_by_id rule_id st with
    | None => (HTTPException 404 "Rule not found", st)
    | Some _ =>
        let '(updated_rule, st') :=
          update rule_id rule_data (user_id current_user) st in
        (Response updated_rule, st')
    end.

(** [rollback_rule]: after the admin check and the lookup of the rule the
    endpoint calls [rule_service.rollback(...)]; [RuleService] defines no
    [rollback], so looking the attribute up on the service object
    raises. *)
Definition rollback_rule (rule_id version_id : UUID) (current_user : User)
    (st : Store) : http Rule.t * Store :=
  if negb (is_admin current_user)
  then (HTTPException 403 "Admin access required", st)
  else
    match get_by_id rule_id st with
    | None => (HTTPException 404 "Rule not found", st)
    | Some _ => (Unhandled AttributeError, st)
    end.

(** ** Sequences of service calls *)

Inductive op : Type :=
| Create (data : RuleCreate.t) (created_by : UUID)
| Update (rule_id : UUID) (data : RuleUpdate.t) (modified_by : UUID)
| Delete (rule_id : UUID)
| ToggleActive (rule_id : UUID) (is_active : bool) (modified_by : UUID).

Definition step (st : Store) (o : op) : Store :=
  match o with
  | Create data u =>
      match create data u st with
      | Ok (_, st') => st'
      | Raise _ => st
      end
  | Update rid data u => snd (update rid data u st)
  | Delete rid => snd (delete rid st)
  | ToggleActive rid b u => snd (toggle_active rid b u st)
  end.

Definition run (ops : list op) (st : Store) : Store :=
  fold_left step ops st.

(** ** The execution pipeline *)

Record ExecutionTrace : Type := mkExecutionTrace {
  evaluations : list Evaluation;
  final_outcome : option ActionType;
  rules_matched_count : nat
}.

(** The loop of the pipeline: one evaluation per rule, appended to the
    trace; a match adds its action to the match list. *)
Definition pipeline_step (ctx : context)
    (acc : list Evaluation * list ActionType) (rule : Rule.t)
    : list Evaluation * list ActionType :=
  let ev := evaluate_rule rule ctx in
  ((fst acc ++ [ev])%list,
   if matched ev then (snd acc ++ [Rule.action_type rule])%list else snd acc).

Definition resolve_outcome (actions : list ActionType) : option ActionType :=
  if existsb (ActionType_eqb DENY) actions then Some DENY
  else if existsb (ActionType_eqb FLAG) actions then Some FLAG
  else if existsb (ActionType_eqb APPROVE) actions then Some APPROVE
  else None.

(** Modelled from the spec: [RuleService.execute_for_claim], which the
    [execute_rules] endpoint calls and [rule_service.py] does not define.
    The spec: for each rule in order, run the evaluator on its condition
    against the claim context; if matched, record the rule's action in the
    match list; the pipeline does not stop at the first match, and derives
    the final outcome from the matched actions by the precedence
    DENY > FLAG > APPROVE > no outcome.  The evaluator is the source's
    [evaluate_rule]. *)
Definition run_pipeline (active : list Rule.t) (ctx : context)
    : ExecutionTrace :=
  let '(evs, actions) := fold_left (pipeline_step ctx) active ([], []) in
  {| evaluations := evs;
     final_outcome := resolve_outcome actions;
     rules_matched_count := List.length actions |}.

(** The pipeline on the catalog's answer. *)
Definition execute (scan : list Rule.t -> list Rule.t) (ctx : context)
    (asOf : datetime) (ruleTypeFilter : option RuleType) (st : Store)
    : ExecutionTrace :=
  run_pipeline (get_active_rules scan asOf ruleTypeFilter st) ctx.

(** ** Notions the statements use *)

(** A condition holding one comparison under the default connective. *)
Definition single (entry : list (string * value)) : value :=
  VDict [("operator", VStr "and"); ("rules", VList [VDict entry])].

(** A rule with a given condition, the other attributes fixed: the
    evaluator reads nothing else but the action and the templates. *)
Definition rule_with (code : string) (prio : Z) (act : ActionType)
    (cond : value) : Rule.t :=
  {| Rule.id := 0%N;
     Rule.rule_name := code;
     Rule.rule_code := code;
     Rule.description := None;
     Rule.rule_type := ADJUDICATION;
     Rule.action_type := act;
     Rule.condition_logic := cond;
     Rule.priority := prio;
     Rule.is_active := true;
     Rule.effective_from := None;
     Rule.effective_to := None;
     Rule.denial_reason_template := None;
     Rule.flag_reason_template := None;
     Rule.category := None;
     Rule.tags := [];
     Rule.created_by := None;
     Rule.last_modified_by := None |}.

(** The content columns of a version row, and the same attributes of a
    rule. *)
Definition version_fields (v : RuleVersion.t)
    : string * RuleType * ActionType * value * Z * option datetime :=
  (RuleVersion.rule_name v, RuleVersion.rule_type v,
   RuleVersion.action_type v, RuleVersion.condition_logic v,
   RuleVersion.priority v, RuleVersion.effective_from v).

Definition snapshot_fields (r : Rule.t)
    : string * RuleType * ActionType * value * Z * option datetime :=
  (Rule.rule_name r, Rule.rule_type r, Rule.action_type r,
   Rule.condition_logic r, Rule.priority r, Rule.effective_from r).

(** The attributes that fix what a rule does and when. *)
Definition defining_fields (r : Rule.t)
    : string * RuleType * ActionType * value * Z * bool
      * option datetime * option datetime * option string * option string :=
  (Rule.rule_name r, Rule.rule_type r, Rule.action_type r,
   Rule.condition_logic r, Rule.priority r, Rule.is_active r,
   Rule.effective_from r, Rule.effective_to r,
   Rule.denial_reason_template r, Rule.flag_reason_template r).

Definition version_numbers (rule_id : UUID) (st : Store) : list Z :=
  map RuleVersion.version_number (versions_of rule_id st).

(** The numbers [1; 2; ...; n]. *)
Definition numbered (n : nat) : list Z := map Z.of_nat (seq 1 n).

(** What the service calls keep of a table: ids in use lie below the
    next id to hand out, and the versions of a rule, in the order they
    were written, carry the numbers 1, 2, 3, ... *)
Record wf (st : Store) : Prop := mkWf {
  wf_rules : forall r, In r (rules st) -> (Rule.id r < next_uuid st)%N;
  wf_versions :
    forall v, In v (rule_versions st) ->
              (RuleVersion.rule_id v < next_uuid st)%N;
  wf_numbers :
    forall rid,
      version_numbers rid st = numbered (List.length (versions_of rid st))
}.

Definition priority_le (a b : Rule.t) : Prop :=
  Rule.priority a <= Rule.priority b.

(** The order [(priority, code)] ascending. *)
Definition priority_code_le (a b : Rule.t) : Prop :=
  Rule.priority a < Rule.priority b
  \/ (Rule.priority a = Rule.priority b
      /\ String.leb (Rule.rule_code a) (Rule.rule_code b) = true).

(** Whether a rule's condition evaluated to matched on the context, and
    whether some rule of the list matched with a given action. *)
Definition condition_matched (ctx : context) (r : Rule.t) : bool :=
  match _evaluate_conditions (Rule.condition_logic r) ctx with
  | Ok b => b
  | Raise _ => false
  end.

Definition some_match (ctx : context) (a : ActionType) (l : list Rule.t)
    : bool :=
  existsb (fun r => condition_matched ctx r
                    && ActionType_eqb (Rule.action_type r) a) l.

(** What [update] leaves in a field: the value of the request when it
    gives one, the old value when it leaves the field out. *)
Definition updated {A : Type} (o : option A) (old new : A) : Prop :=
  match o with
  | Some x => new = x
  | None => new = old
  end.

Definition updated_opt {A : Type} (o : option A) (old new : option A) : Prop :=
  match o with
  | Some x => new = Some x
  | None => new = old
  end.

(** The order of [get_versions]: descending version number. *)
Definition newer_first (a b : RuleVersion.t) : Prop :=
  RuleVersion.version_number b <= RuleVersion.version_number a.

(** The connective of a condition dict: [conditions.get("operator",
    "and")]. *)
Definition connective (d : list (string * value)) : value :=
  or_default (lookup "operator" d) (VStr "and").

(** What the tables handled below satisfy beyond [wf]: primary keys and
    rule codes are unique, every version belongs to a rule of the table,
    and the last version written for a rule holds the rule's current
    name, type, action, condition logic, priority and [effective_from]. *)
Record consistent (st : Store) : Prop := mkConsistent {
  unique_ids : NoDup (map Rule.id (rules st));
  unique_codes : NoDup (map Rule.rule_code (rules st));
  versions_owned :
    forall v, In v (rule_versions st) ->
              exists r, In r (rules st) /\ Rule.id r = RuleVersion.rule_id v;
  latest_mirrors :
    forall r, In r (rules st) ->
              exists l v,
                versions_of (Rule.id r) st = (l ++ [v])%list
                /\ version_fields v = snapshot_fields r
}.

(** ** Listing and the read endpoints *)

(** The filters of [RuleService.list]: [if rule_type], [if is_active is
    not None], [if category]; an empty category string filters nothing,
    and a rule without a category never equals a requested one. *)
Definition listed (rule_type : option RuleType) (is_active : option bool)
    (category : option string) (r : Rule.t) : bool :=
  of_type rule_type r
  && match is_active with
     | Some b => Bool.eqb (Rule.is_active r) b
     | None => true
     end
  && match category with
     | Some c =>
         if (c =? "")%string then true
         else match Rule.category r with
              | Some c' => (c' =? c)%string
              | None => false
              end
     | None => true
     end.

(** A listing returns, or an exception leaves the service, or the
    database refuses a negative OFFSET or LIMIT. *)
Inductive query (A : Type) : Type :=
| Rows (a : A)
| Failed (e : exn)
| InvalidRowCount.
Arguments Rows {A} a.
Arguments Failed {A} e.
Arguments InvalidRowCount {A}.

Module PaginationMeta.
Record t : Type := mk {
  page : Z;
  page_size : Z;
  total_items : Z;
  total_pages : Z;
  has_next : bool;
  has_prev : bool
}.
End PaginationMeta.

Section Listing.

(** [getattr(Rule, sort_by, Rule.priority)] followed by [.desc()] or
    [.asc()]: for a name that is an attribute of [Rule] without these
    methods the call raises; otherwise the query is ordered by that
    column, and the rows come back in an order the database chooses for
    that column and direction (the second argument says whether
    [sort_order] is "desc").  Which names raise depends on the attributes
    [Rule] inherits from the base model, so the resolution is taken as
    given.  It stands for one query: the database may order rows of equal
    sort key differently in the next. *)
Variable order_by : string -> bool -> res (list Rule.t -> list Rule.t).

(** [RuleService.list]: the count is taken over the filtered rows, the
    page over the ordered ones. *)
Definition list_ (rule_type : option RuleType) (is_active : option bool)
    (category : option string) (page page_size : Z)
    (sort_by sort_order : string) (st : Store)
    : query (list Rule.t * nat) :=
  let rows := filter (listed rule_type is_active category) (rules st) in
  let total := List.length rows in
  match order_by sort_by (sort_order =? "desc")%string with
  | Raise e => Failed e
  | Ok sort =>
      let offset := (page - 1) * page_size in
      if (offset <? 0) || (page_size <? 0) then InvalidRowCount
      else
        Rows (firstn (Z.to_nat page_size)
                (skipn (Z.to_nat offset) (sort rows)),
              total)
  end.

(** The [list_rules] endpoint; the framework admits [page >= 1] and
    [1 <= page_size <= 100] only. *)
Definition list_rules (rule_type : option RuleType) (is_active : option bool)
    (category : option string) (page page_size : Z)
    (sort_by sort_order : string) (st : Store)
    : query (list Rule.t * PaginationMeta.t) :=
  match list_ rule_type is_active category page page_size
              sort_by sort_order st with
  | InvalidRowCount => InvalidRowCount
  | Failed e => Failed e
  | Rows (rules, total) =>
      let total_pages := (Z.of_nat total + page_size - 1) / page_size in
      Rows (rules,
            {| PaginationMeta.page := page;
               PaginationMeta.page_size := page_size;
               PaginationMeta.total_items := Z.of_nat total;
               PaginationMeta.total_pages := total_pages;
               PaginationMeta.has_next := page <? total_pages;
               PaginationMeta.has_prev := page >? 1 |})
  end.

End Listing.

Definition get_rule (rule_id : UUID) (st : Store) : http Rule.t :=
  match get_by_id rule_id st with
  | None => HTTPException 404 "Rule not found"
  | Some rule => Response rule
  end.

Definition get_rule_versions (rule_id : UUID) (st : Store)
    : http (list RuleVersion.t) :=
  match get_by_id rule_id st with
  | None => HTTPException 404 "Rule not found"
  | Some _ => Response (get_versions rule_id st)
  end.

(** Requests to the two writing endpoints above, and the store a server
    is left with after a series of them. *)
Inductive request : Type :=
| PostRule (user : User) (rule_data : RuleCreate.t)
| PutRule (user : User) (rule_id : UUID) (rule_data : RuleUpdate.t).

Definition serve (st : Store) (rq : request) : Store :=
  match rq with
  | PostRule user rule_data => snd (create_rule rule_data user st)
  | PutRule user rule_id rule_data =>
      snd (update_rule rule_id rule_data user st)
  end.

Definition sender (rq : request) : User :=
  match rq with
  | PostRule user _ => user
  | PutRule user _ _ => user
  end.

(** ** Sample requests, rows, tables and contexts *)

Definition admin : User := {| user_id := 7%N; role := ADMIN |}.

Definition provider : User := {| user_id := 9%N; role := PROVIDER |}.

(** The condition [amount > 1000] the way the request schema writes it. *)
Definition amount_over_1000 : ConditionLogic :=
  MkConditionLogic "AND"
    (Some [MkConditionLogic "COMPARISON" None (Some "amount") (Some ">")
             (Some (VInt 1000))])
    None None None.

Definition high_amount : RuleCreate.t :=
  {| RuleCreate.rule_name := "High amount";
     RuleCreate.rule_code := "HIGH_AMOUNT";
     RuleCreate.description := None;
     RuleCreate.rule_type := ADJUDICATION;
     RuleCreate.action_type := FLAG;
     RuleCreate.condition_logic := model_dump amount_over_1000;
     RuleCreate.priority := 10;
     RuleCreate.effective_from := None;
     RuleCreate.effective_to := None;
     RuleCreate.denial_reason_template := None;
     RuleCreate.flag_reason_template := Some "Amount above 1000";
     RuleCreate.category := None;
     RuleCreate.tags := None |}.

Definition rename_to (name : string) : RuleUpdate.t :=
  {| RuleUpdate.rule_name := Some name;
     RuleUpdate.description := None;
     RuleUpdate.rule_type := None;
     RuleUpdate.action_type := None;
     RuleUpdate.condition_logic := None;
     RuleUpdate.priority := None;
     RuleUpdate.is_active := None;
     RuleUpdate.effective_from := None;
     RuleUpdate.effective_to := None;
     RuleUpdate.denial_reason_template := None;
     RuleUpdate.flag_reason_template := None;
     RuleUpdate.category := None;
     RuleUpdate.tags := None;
     RuleUpdate.change_description := None |}.

(** The same renaming, which also retires the rule, closes its window and
    replaces its denial message. *)
Definition rename_and_retire (name : string) : RuleUpdate.t :=
  {| RuleUpdate.rule_name := Some name;
     RuleUpdate.description := None;
     RuleUpdate.rule_type := None;
     RuleUpdate.action_type := None;
     RuleUpdate.condition_logic := None;
     RuleUpdate.priority := None;
     RuleUpdate.is_active := Some false;
     RuleUpdate.effective_from := None;
     RuleUpdate.effective_to := Some 1800000000;
     RuleUpdate.denial_reason_template := Some "Not insured";
     RuleUpdate.flag_reason_template := None;
     RuleUpdate.category := None;
     RuleUpdate.tags := None;
     RuleUpdate.change_description := None |}.

(** A row of the rules table: active unless said otherwise, denying
    services outside Alberta. *)
Definition stored (id : UUID) (code : string) (prio : Z) (active : bool)
    (until : option datetime) : Rule.t :=
  {| Rule.id := id;
     Rule.rule_name := code;
     Rule.rule_code := code;
     Rule.description := None;
     Rule.rule_type := ADJUDICATION;
     Rule.action_type := DENY;
     Rule.condition_logic :=
       single [("field", VStr "province"); ("operator", VStr "not_equals");
               ("value", VStr "AB")];
     Rule.priority := prio;
     Rule.is_active := active;
     Rule.effective_from := None;
     Rule.effective_to := until;
     Rule.denial_reason_template := Some "Service outside Alberta";
     Rule.flag_reason_template := None;
     Rule.category := None;
     Rule.tags := [];
     Rule.created_by := Some 7%N;
     Rule.last_modified_by := Some 7%N |}.

(** The row of a rule flagging high amounts, its condition in the shape of
    the request schema. *)
Definition high_amount_rule : Rule.t :=
  {| Rule.id := 0%N;
     Rule.rule_name := "High amount";
     Rule.rule_code := "HIGH_AMOUNT";
     Rule.description := None;
     Rule.rule_type := ADJUDICATION;
     Rule.action_type := FLAG;
     Rule.condition_logic := model_dump amount_over_1000;
     Rule.priority := 10;
     Rule.is_active := true;
     Rule.effective_from := None;
     Rule.effective_to := None;
     Rule.denial_reason_template := None;
     Rule.flag_reason_template := Some "Amount above 1000";
     Rule.category := None;
     Rule.tags := [];
     Rule.created_by := Some 7%N;
     Rule.last_modified_by := Some 7%N |}.

(** The row of a rule's first version. *)
Definition first_version (id : UUID) (r : Rule.t) : RuleVersion.t :=
  {| RuleVersion.id := id;
     RuleVersion.rule_id := Rule.id r;
     RuleVersion.version_number := 1;
     RuleVersion.rule_name := Rule.rule_name r;
     RuleVersion.rule_type := Rule.rule_type r;
     RuleVersion.action_type := Rule.action_type r;
     RuleVersion.condition_logic := Rule.condition_logic r;
     RuleVersion.priority := Rule.priority r;
     RuleVersion.change_description := Some "Initial version";
     RuleVersion.effective_from := Rule.effective_from r;
     RuleVersion.created_by := Rule.created_by r |}.

(** A table holding the one rule above, and its first version. *)
Definition seeded : Store :=
  {| rules := [high_amount_rule];
     rule_versions := [first_version 1%N high_amount_rule];
     next_uuid := 2%N |}.

(** A table with two active rules of priority 10, [A_RULE] stored before
    [B_RULE]. *)
Definition tied : Store :=
  {| rules := [stored 0%N "A_RULE" 10 true None;
               stored 2%N "B_RULE" 10 true None];
     rule_versions := [first_version 1%N (stored 0%N "A_RULE" 10 true None);
                       first_version 3%N (stored 2%N "B_RULE" 10 true None)];
     next_uuid := 4%N |}.

(** A table with an active rule whose window closed at 1800000000. *)
Definition lapsed : Rule.t := stored 2%N "LAPSED" 5 true (Some 1800000000).

Definition with_lapsed : Store :=
  {| rules := [high_amount_rule; lapsed];
     rule_versions := [first_version 1%N high_amount_rule;
                       first_version 3%N lapsed];
     next_uuid := 4%N |}.

(** Three rules of priorities 10, 5 and 7. *)
Definition three_rules : Store :=
  {| rules := [stored 0%N "B_RULE" 10 true None;
               stored 2%N "A_RULE" 5 true None;
               stored 4%N "C_RULE" 7 true None];
     rule_versions := [first_version 1%N (stored 0%N "B_RULE" 10 true None);
                       first_version 3%N (stored 2%N "A_RULE" 5 true None);
                       first_version 5%N (stored 4%N "C_RULE" 7 true None)];
     next_uuid := 6%N |}.

(** The run of the spec: priority 5 approves, priority 10 denies, both
    match. *)
Definition approve_p5 : Rule.t :=
  rule_with "APPROVE_AB" 5 APPROVE
    (single [("field", VStr "province"); ("operator", VStr "equals");
             ("value", VStr "AB")]).

Definition deny_p10 : Rule.t :=
  rule_with "DENY_LARGE" 10 DENY
    (single [("field", VStr "amount"); ("operator", VStr "greater_than");
             ("value", VInt 1000)]).

Definition large_ab_claim : context :=
  [("province", VStr "AB"); ("amount", VInt 5000)].

(** A resolution of the sort attribute for the examples: [__tablename__]
    is a string, which has no [asc] or [desc]; under any other name the
    rows are ordered by priority, which is the column [getattr] falls back
    on, ascending or descending. *)
Definition by_priority_only (sort_by : string) (descending : bool)
    : res (list Rule.t -> list Rule.t) :=
  if (sort_by =? "__tablename__")%string then Raise AttributeError
  else Ok (fun l => if descending then rev (order_by_priority l)
                    else order_by_priority l).

(** * Properties *)

(** ** The evaluator *)

Section Evaluator.

Variable ctx : context.

Lemma eq_None_l (v : value) : v <> VNone -> eq VNone v = false.
Proof. destruct v; simpl; congruence. Qed.

(** What the loop body appends when the context has no value for the
    field: only [equals] and [not_equals] look at the condition's value. *)
Lemma evaluate_comparison_absent (entry : list (string * value)) (k : string) :
  lookup "field" entry = Some (VStr k) ->
  lookup k ctx = None ->
  evaluate_comparison (VDict entry) ctx =
    let op := or_default (lookup "operator" entry) VNone in
    let v := or_default (lookup "value" entry) VNone in
    if is_str op "equals" then Ok (eq VNone v)
    else if is_str op "not_equals" then Ok (negb (eq VNone v))
    else Ok false.
Proof.
  intros Hf Hk. unfold evaluate_comparison, get. simpl.
  rewrite Hf. simpl. rewrite Hk.
  fold (or_default (lookup "operator" entry) VNone).
  fold (or_default (lookup "value" entry) VNone).
  simpl.
  repeat match goal with
         | |- context [if ?b then _ else _] => destruct b
         end; reflexivity.
Qed.

Lemma single_evaluates (entry : list (string * value)) (b : bool) :
  evaluate_comparison (VDict entry) ctx = Ok b ->
  _evaluate_conditions (single entry) ctx = Ok b.
Proof.
  intros H. unfold _evaluate_conditions, single. simpl.
  rewrite H. simpl. now rewrite andb_true_r.
Qed.

Lemma single_raises (entry : list (string * value)) (e : exn) :
  evaluate_comparison (VDict entry) ctx = Raise e ->
  _evaluate_conditions (single entry) ctx = Raise e.
Proof.
  intros H. unfold _evaluate_conditions, single. simpl.
  now rewrite H.
Qed.

(** No [rules] key, no match. *)
Lemma no_rules_no_match (d : list (string * value)) :
  lookup "rules" d = None ->
  _evaluate_conditions (VDict d) ctx = Ok false.
Proof.
  intros H. unfold _evaluate_conditions.
  destruct (negb (truthy (VDict d))); [reflexivity|].
  unfold get. rewrite H. reflexivity.
Qed.

Lemma empty_rules_no_match (d : list (string * value)) :
  lookup "rules" d = Some (VList []) ->
  _evaluate_conditions (VDict d) ctx = Ok false.
Proof.
  intros H. unfold _evaluate_conditions.
  destruct (negb (truthy (VDict d))); [reflexivity|].
  unfold get. rewrite H. reflexivity.
Qed.

Lemma evaluate_rule_matched (rule : Rule.t) :
  matched (evaluate_rule rule ctx) =
    match _evaluate_conditions (Rule.condition_logic rule) ctx with
    | Ok b => b
    | Raise _ => false
    end.
Proof.
  unfold evaluate_rule.
  destruct (_evaluate_conditions (Rule.condition_logic rule) ctx) as [[|]|];
    reflexivity.
Qed.

End Evaluator.

Lemma model_dump_has_no_rules (c : ConditionLogic) :
  exists d, model_dump c = VDict d /\ lookup "rules" d = None.
Proof.
  destruct c as [ty conds fld op v]. simpl. eexists. split; reflexivity.
Qed.

(** C5, as stated, fails: the context has no [amount], the operator is
    [equals] and the condition's value is null; [None == None] holds, so
    the comparison is true (and [not_equals] on the same entry is false). *)
Lemma absent_field_equals_null_matches :
  evaluate_comparison
    (VDict [("field", VStr "amount"); ("operator", VStr "equals");
            ("value", VNone)]) [] = Ok true
  /\ evaluate_comparison
    (VDict [("field", VStr "amount"); ("operator", VStr "not_equals");
            ("value", VNone)]) [] = Ok false
  /\ matched (evaluate_rule
       (rule_with "R1" 10 FLAG
          (single [("field", VStr "amount"); ("operator", VStr "equals");
                   ("value", VNone)])) []) = true.
Proof. repeat split; reflexivity. Qed.

(** C5, amended: when the field is absent from the context and the
    condition's value is not null, a comparison is true exactly when its
    operator is [not_equals]; so is the condition made of that comparison
    alone, and so is the [matched] flag of a rule carrying it. *)
Theorem absent_field_comparison
    (ctx : context) (entry : list (string * value)) (k op : string)
    (v : value) (rule : Rule.t) :
  lookup "field" entry = Some (VStr k) ->
  lookup "operator" entry = Some (VStr op) ->
  lookup "value" entry = Some v ->
  v <> VNone ->
  lookup k ctx = None ->
  Rule.condition_logic rule = single entry ->
  evaluate_comparison (VDict entry) ctx = Ok (op =? "not_equals")%string
  /\ _evaluate_conditions (single entry) ctx = Ok (op =? "not_equals")%string
  /\ matched (evaluate_rule rule ctx) = (op =? "not_equals")%string.
Proof.
  intros Hf Ho Hv Hnn Hk Hc.
  assert (H : evaluate_comparison (VDict entry) ctx
              = Ok (op =? "not_equals")%string).
  { rewrite (evaluate_comparison_absent ctx entry k Hf Hk).
    rewrite Ho, Hv. cbn [or_default is_str].
    rewrite (eq_None_l v Hnn).
    destruct (op =? "equals")%string eqn:E.
    - apply String.eqb_eq in E. subst op. reflexivity.
    - destruct (op =? "not_equals")%string; reflexivity. }
  split; [exact H|]. split.
  - now apply single_evaluates.
  - rewrite evaluate_rule_matched, Hc.
    now rewrite (single_evaluates ctx entry _ H).
Qed.

Lemma absent_field_comparison_witness :
  matched (evaluate_rule
    (rule_with "R1" 10 FLAG
       (single [("field", VStr "amount"); ("operator", VStr "less_than");
                ("value", VInt 100)]))
    [("status", VStr "open")]) = false.
Proof.
  exact (proj2 (proj2
    (absent_field_comparison
       [("status", VStr "open")]
       [("field", VStr "amount"); ("operator", VStr "less_than");
        ("value", VInt 100)]
       "amount" "less_than" (VInt 100)
       (rule_with "R1" 10 FLAG
          (single [("field", VStr "amount"); ("operator", VStr "less_than");
                   ("value", VInt 100)]))
       eq_refl eq_refl eq_refl
       (fun H : VInt 100 = VNone =>
          match H in (_ = y) return
                match y with VNone => False | _ => True end
          with eq_refl => I end)
       eq_refl eq_refl))).
Defined.

(** C9, at a context value of zero: [0 > -1] and [0 < 5] hold, yet the
    guard [if context_value] takes zero for a missing value and both
    comparisons come out false. *)
Theorem zero_context_value_never_compares :
  order OpGt (VInt 0) (VInt (-1)) = Ok true
  /\ evaluate_comparison
       (VDict [("field", VStr "amount"); ("operator", VStr "greater_than");
               ("value", VInt (-1))])
       [("amount", VInt 0)] = Ok false
  /\ order OpLt (VInt 0) (VInt 5) = Ok true
  /\ evaluate_comparison
       (VDict [("field", VStr "amount"); ("operator", VStr "less_than");
               ("value", VInt 5)])
       [("amount", VInt 0)] = Ok false
  /\ matched (evaluate_rule
       (rule_with "R1" 10 FLAG
          (single [("field", VStr "amount");
                   ("operator", VStr "greater_than");
                   ("value", VInt (-1))]))
       [("amount", VInt 0)]) = false.
Proof. repeat split; reflexivity. Qed.

(** Away from zero the order comparisons of numbers are the arithmetic
    ones. *)
Lemma order_comparison_nonzero
    (ctx : context) (entry : list (string * value)) (k : string)
    (op : order_op) (x y : Z) :
  lookup "field" entry = Some (VStr k) ->
  lookup "operator" entry =
    Some (VStr match op with OpGt => "greater_than" | OpLt => "less_than" end) ->
  lookup "value" entry = Some (VInt y) ->
  lookup k ctx = Some (VInt x) ->
  x <> 0 ->
  evaluate_comparison (VDict entry) ctx = Ok (num_order op x y).
Proof.
  intros Hf Ho Hv Hk Hx. unfold evaluate_comparison, get. simpl.
  rewrite Hf, Ho, Hv. simpl. rewrite Hk.
  assert (Ht : truthy (VInt x) = true).
  { simpl. apply negb_true_iff, Z.eqb_neq, Hx. }
  destruct op; simpl is_str; cbv iota; rewrite Ht; reflexivity.
Qed.

(** A string against a number: the comparison raises, and [evaluate_rule]
    turns the exception into an unmatched result carrying the error. *)
Lemma order_type_mismatch_is_caught :
  let cond := single [("field", VStr "amount");
                      ("operator", VStr "greater_than");
                      ("value", VInt 5)] in
  let ctx := [("amount", VStr "abc")] in
  _evaluate_conditions cond ctx = Raise TypeError
  /\ matched (evaluate_rule (rule_with "R1" 10 FLAG cond) ctx) = false
  /\ error (evaluate_rule (rule_with "R1" 10 FLAG cond) ctx) = Some TypeError.
Proof. repeat split; reflexivity. Qed.

(** ** Conditions in the shape of the request schema *)

Lemma model_dump_truthy (c : ConditionLogic) : truthy (model_dump c) = true.
Proof. destruct c; reflexivity. Qed.

Lemma model_dump_no_match (c : ConditionLogic) (ctx : context) :
  _evaluate_conditions (model_dump c) ctx = Ok false.
Proof.
  destruct (model_dump_has_no_rules c) as (d & -> & Hd).
  now apply no_rules_no_match.
Qed.

(** C10: a condition that is the dict of a [ConditionLogic] has no
    [rules] key, so the evaluator answers false on it for every context,
    without an exception; every rule that carries such a condition,
    however it came to carry it, is therefore reported unmatched, with no
    action and no error. *)
Theorem schema_condition_never_matches
    (c : ConditionLogic) (rule : Rule.t) (ctx : context) :
  Rule.condition_logic rule = model_dump c ->
  _evaluate_conditions (Rule.condition_logic rule) ctx = Ok false
  /\ matched (evaluate_rule rule ctx) = false
  /\ action (evaluate_rule rule ctx) = None
  /\ error (evaluate_rule rule ctx) = None.
Proof.
  intros H.
  assert (He : _evaluate_conditions (Rule.condition_logic rule) ctx
               = Ok false) by (rewrite H; apply model_dump_no_match).
  split; [exact He|]. unfold evaluate_rule. rewrite He.
  repeat split; reflexivity.
Qed.

Lemma schema_condition_never_matches_witness :
  Rule.condition_logic high_amount_rule = model_dump amount_over_1000
  /\ matched (evaluate_rule high_amount_rule [("amount", VInt 5000)]) = false.
Proof.
  split; [reflexivity|].
  exact (proj1 (proj2
    (schema_condition_never_matches amount_over_1000 high_amount_rule
       [("amount", VInt 5000)] eq_refl))).
Defined.

(** ** Creation *)

(** [create] does not get past the arguments of [Rule(...)]. *)
Lemma create_raises (data : RuleCreate.t) (u : UUID) (st : Store) :
  create data u st = Raise AttributeError.
Proof. reflexivity. Qed.

(** C8: when a rule with the requested code exists, [create_rule] raises
    before the service is called and the store it leaves is the store it
    found: the same rules, the same versions.  For an admin the exception
    is the 400 "Rule code already exists"; anyone else is turned away
    with the 403 of every admin endpoint before the code is looked at. *)
Theorem create_rule_duplicate_code
    (data : RuleCreate.t) (user : User) (st : Store) (existing : Rule.t) :
  get_by_code (RuleCreate.rule_code data) st = Some existing ->
  snd (create_rule data user st) = st
  /\ List.length (rules (snd (create_rule data user st)))
     = List.length (rules st)
  /\ List.length (rule_versions (snd (create_rule data user st)))
     = List.length (rule_versions st)
  /\ fst (create_rule data user st) =
       (if is_admin user
        then HTTPException 400 "Rule code already exists"
        else HTTPException 403 "Admin access required").
Proof.
  intros Hex. unfold create_rule. rewrite Hex.
  destruct (is_admin user); cbn; repeat split; reflexivity.
Qed.

Lemma create_rule_duplicate_code_witness :
  get_by_code "HIGH_AMOUNT" seeded = Some high_amount_rule
  /\ create_rule high_amount admin seeded
     = (HTTPException 400 "Rule code already exists", seeded).
Proof.
  split; [reflexivity|].
  pose proof (create_rule_duplicate_code high_amount admin seeded
                high_amount_rule eq_refl)
    as (H1 & _ & _ & H3).
  rewrite (surjective_pairing (create_rule high_amount admin seeded)).
  rewrite H1, H3. reflexivity.
Defined.

(** ** Deletion *)

Lemma find_filter_none {A : Type} (f g : A -> bool) (l : list A) :
  (forall a, f a = true -> g a = false) ->
  find f (filter g l) = None.
Proof.
  intros H. induction l as [|a l IH]; [reflexivity|].
  simpl. destruct (g a) eqn:G; [|exact IH].
  simpl. destruct (f a) eqn:F; [|exact IH].
  rewrite (H a F) in G. discriminate.
Qed.

Lemma filter_filter_nil {A : Type} (f g : A -> bool) (l : list A) :
  (forall a, f a = true -> g a = false) ->
  filter f (filter g l) = [].
Proof.
  intros H. induction l as [|a l IH]; [reflexivity|].
  simpl. destruct (g a) eqn:G; [|exact IH].
  simpl. destruct (f a) eqn:F; [|exact IH].
  rewrite (H a F) in G. discriminate.
Qed.

Lemma get_by_id_id (rid : UUID) (st : Store) (r : Rule.t) :
  get_by_id rid st = Some r -> Rule.id r = rid /\ In r (rules st).
Proof.
  unfold get_by_id. intros H. apply find_some in H as [Hin Heq].
  apply N.eqb_eq in Heq. now split.
Qed.

(** What [delete] does to a rule that exists: the row and all of its
    versions are gone. *)
Lemma delete_is_hard (rid : UUID) (st : Store) (r : Rule.t) :
  get_by_id rid st = Some r ->
  fst (delete rid st) = true
  /\ get_by_id rid (snd (delete rid st)) = None
  /\ versions_of rid (snd (delete rid st)) = [].
Proof.
  intros H. unfold delete. rewrite H. cbn.
  apply get_by_id_id in H as [Hid _]. rewrite Hid.
  split; [reflexivity|]. split.
  - unfold get_by_id. cbn. apply find_filter_none.
    intros a Ha. now rewrite Ha.
  - unfold versions_of. cbn. apply filter_filter_nil.
    intros a Ha. now rewrite Ha.
Qed.

(** C2, at a rule with two versions: the table holds one rule, updated
    once, and two versions of it; [delete] leaves neither the row nor any
    version. *)
Theorem delete_removes_rule_and_versions :
  let st := run [Update 0%N (rename_to "Large amount") 7%N] seeded in
  List.length (rules st) = 1%nat
  /\ List.length (versions_of 0%N st) = 2%nat
  /\ delete 0%N st
     = (true, {| rules := []; rule_versions := []; next_uuid := 3%N |}).
Proof. repeat split; reflexivity. Qed.

(** ** Version snapshots *)

Lemma create_version_appends
    (rule : Rule.t) (u : UUID) (d : string) (st : Store) :
  let v := fst (_create_version rule u d st) in
  let st' := snd (_create_version rule u d st) in
  rules st' = rules st
  /\ rule_versions st' = (rule_versions st ++ [v])%list
  /\ next_uuid st' = N.succ (next_uuid st)
  /\ RuleVersion.rule_id v = Rule.id rule
  /\ RuleVersion.version_number v = max_version (Rule.id rule) st + 1
  /\ RuleVersion.change_description v = Some d
  /\ version_fields v = snapshot_fields rule.
Proof. cbn. repeat split; reflexivity. Qed.

Lemma In_write_rule (rid : UUID) (st : Store) (old new : Rule.t) :
  get_by_id rid st = Some old ->
  Rule.id new = rid ->
  In new (rules (write_rule new st)).
Proof.
  intros H Hn. apply get_by_id_id in H as [Hid Hin].
  unfold write_rule. cbn. apply in_map_iff. exists old. split; [|exact Hin].
  rewrite Hid, Hn, N.eqb_refl. reflexivity.
Qed.

(** C4, as stated, fails: the stored rule is updated in two ways, once
    renamed only, once renamed, retired, given an end of its window and a
    new denial message.  The two resulting rules differ in active flag,
    [effective_to] and denial template, and the version rows written for
    them are one and the same row; nothing computed from that snapshot
    alone can give back both rules. *)
Lemma snapshot_does_not_determine_rule :
  exists r1 st1 r2 st2 v,
    update 0%N (rename_to "Large amount") 7%N seeded = (Some r1, st1)
    /\ update 0%N (rename_and_retire "Large amount") 7%N seeded
       = (Some r2, st2)
    /\ rule_versions st1 = (rule_versions seeded ++ [v])%list
    /\ rule_versions st2 = (rule_versions seeded ++ [v])%list
    /\ Rule.is_active r1 <> Rule.is_active r2
    /\ Rule.effective_to r1 <> Rule.effective_to r2
    /\ Rule.denial_reason_template r1 <> Rule.denial_reason_template r2
    /\ ~ exists reconstruct,
          reconstruct v = defining_fields r1
          /\ reconstruct v = defining_fields r2.
Proof.
  do 5 eexists.
  split; [reflexivity|]. split; [reflexivity|].
  split; [reflexivity|]. split; [reflexivity|].
  repeat split; try (cbn; discriminate).
  intros (f & H1 & H2). rewrite H1 in H2. cbn in H2. discriminate H2.
Qed.

(** C4, amended: the version row written after a mutation is appended to
    the rule's history and copies the rule's name, type, action, condition
    logic, priority and [effective_from] as they stand after the mutation.
    This holds of [_create_version], which [create] calls on the new row
    and [update] on the updated one, and of [update] as a whole, whose
    returned rule is the row now in the table.  The active flag,
    [effective_to] and the message templates have no column in a version
    row. *)
Theorem version_snapshot_fields :
  (forall rule u d st,
      exists v,
        _create_version rule u d st
        = (v, {| rules := rules st;
                 rule_versions := (rule_versions st ++ [v])%list;
                 next_uuid := N.succ (next_uuid st) |})
        /\ RuleVersion.rule_id v = Rule.id rule
        /\ RuleVersion.change_description v = Some d
        /\ version_fields v = snapshot_fields rule)
  /\ (forall rid data u st old r st',
      get_by_id rid st = Some old ->
      update rid data u st = (Some r, st') ->
      r = apply_update old data u
      /\ In r (rules st')
      /\ exists v,
           rule_versions st' = (rule_versions st ++ [v])%list
           /\ RuleVersion.rule_id v = Rule.id r
           /\ version_fields v = snapshot_fields r).
Proof.
  split.
  - intros rule u d st. eexists. split; [reflexivity|].
    repeat split; reflexivity.
  - intros rid data u st old r st' Hold H.
    unfold update in H. rewrite Hold in H. cbn in H.
    inversion H as [[Hr Hst]]. clear H.
    split; [reflexivity|]. split.
    + cbn. apply (In_write_rule rid st old); [exact Hold|].
      cbn. now apply get_by_id_id in Hold.
    + eexists. cbn. repeat split; reflexivity.
Qed.

Lemma version_snapshot_fields_witness :
  exists v,
    rule_versions (snd (update 0%N (rename_and_retire "Large amount") 7%N
                          seeded))
    = (rule_versions seeded ++ [v])%list
    /\ RuleVersion.rule_name v = "Large amount".
Proof.
  destruct (proj2 version_snapshot_fields 0%N
              (rename_and_retire "Large amount") 7%N seeded
              high_amount_rule
              (apply_update high_amount_rule
                            (rename_and_retire "Large amount") 7%N)
              (snd (update 0%N (rename_and_retire "Large amount") 7%N
                      seeded))
              eq_refl eq_refl)
    as (_ & _ & v & Hv & _ & Hf).
  exists v. split; [exact Hv|].
  now inversion Hf.
Defined.

(** ** Version numbers *)

Section History.

Lemma numbered_S (n : nat) :
  numbered (S n) = (numbered n ++ [Z.of_nat n + 1])%list.
Proof.
  unfold numbered. rewrite seq_S, map_app. cbn [map]. f_equal. f_equal. lia.
Qed.

Lemma sql_max_snoc (l : list Z) (a : Z) :
  sql_max (l ++ [a]) =
    Some (match sql_max l with Some m => Z.max m a | None => a end).
Proof.
  destruct l as [|x l]; [reflexivity|].
  cbn. now rewrite fold_left_app.
Qed.

Lemma sql_max_numbered (n : nat) :
  sql_max (numbered n) =
    match n with O => None | S _ => Some (Z.of_nat n) end.
Proof.
  induction n as [|n IH]; [reflexivity|].
  rewrite numbered_S, sql_max_snoc, IH.
  destruct n; f_equal; lia.
Qed.

Lemma max_version_numbered (rid : UUID) (st : Store) :
  version_numbers rid st = numbered (List.length (versions_of rid st)) ->
  max_version rid st = Z.of_nat (List.length (versions_of rid st)).
Proof.
  unfold max_version, version_numbers. intros ->.
  rewrite sql_max_numbered.
  destruct (List.length (versions_of rid st)) as [|n]; [reflexivity|].
  destruct (Z.of_nat (S n) =? 0) eqn:E; [apply Z.eqb_eq in E; lia|reflexivity].
Qed.

Lemma numbered_NoDup (n : nat) : NoDup (numbered n).
Proof.
  unfold numbered. apply Finite.Injective_map_NoDup.
  - intros x y. apply Nat2Z.inj.
  - apply seq_NoDup.
Qed.

Lemma numbered_increasing (s n : nat) :
  StronglySorted Z.lt (map Z.of_nat (seq s n)).
Proof.
  revert s. induction n as [|n IH]; intros s; cbn; constructor.
  - apply IH.
  - apply Forall_forall. intros z Hz.
    apply in_map_iff in Hz as (k & <- & Hk). apply in_seq in Hk. lia.
Qed.

Lemma versions_of_create_version
    (rule : Rule.t) (u : UUID) (d : string) (st : Store) (rid : UUID) :
  versions_of rid (snd (_create_version rule u d st)) =
    (versions_of rid st ++
       if (Rule.id rule =? rid)%N
       then [fst (_create_version rule u d st)] else [])%list.
Proof.
  unfold versions_of. cbn. rewrite filter_app. cbn.
  destruct (Rule.id rule =? rid)%N; reflexivity.
Qed.

Lemma create_version_numbers
    (rule : Rule.t) (u : UUID) (d : string) (st : Store) :
  version_numbers (Rule.id rule) (snd (_create_version rule u d st)) =
    (version_numbers (Rule.id rule) st
       ++ [max_version (Rule.id rule) st + 1])%list.
Proof.
  unfold version_numbers.
  rewrite versions_of_create_version, N.eqb_refl, map_app. reflexivity.
Qed.

Lemma create_version_wf (rule : Rule.t) (u : UUID) (d : string) (st : Store) :
  wf st -> (Rule.id rule < next_uuid st)%N ->
  wf (snd (_create_version rule u d st)).
Proof.
  intros [Hr Hv Hn] Hid. constructor.
  - cbn. intros r Hin. apply Hr in Hin. lia.
  - cbn. intros v Hin. apply in_app_or in Hin as [Hin|[<-|[]]].
    + apply Hv in Hin. lia.
    + cbn. lia.
  - intros rid. destruct (Rule.id rule =? rid)%N eqn:E.
    + apply N.eqb_eq in E. subst rid.
      rewrite create_version_numbers, versions_of_create_version, N.eqb_refl.
      rewrite length_app, Nat.add_1_r, numbered_S. cbn [List.length].
      rewrite (max_version_numbered _ _ (Hn _)), <- Hn. reflexivity.
    + unfold version_numbers.
      rewrite versions_of_create_version, E, app_nil_r. apply Hn.
Qed.

Lemma write_rule_wf (new : Rule.t) (st : Store) :
  wf st -> (Rule.id new < next_uuid st)%N -> wf (write_rule new st).
Proof.
  intros [Hr Hv Hn] Hid. constructor; cbn.
  - intros r Hin. apply in_map_iff in Hin as (r0 & <- & Hin).
    destruct (Rule.id r0 =? Rule.id new)%N; [exact Hid|now apply Hr].
  - exact Hv.
  - exact Hn.
Qed.

Lemma update_wf (rid : UUID) (data : RuleUpdate.t) (u : UUID) (st : Store) :
  wf st -> wf (snd (update rid data u st)).
Proof.
  intros Hwf. unfold update.
  destruct (get_by_id rid st) as [old|] eqn:Hold; [|exact Hwf].
  apply get_by_id_id in Hold as [Hid Hin].
  pose proof (wf_rules st Hwf old Hin) as Hlt.
  match goal with
  | |- wf (snd (let '(_, _) := _create_version ?rule ?u ?d ?s in _)) =>
      change (wf (snd (_create_version rule u d s)))
  end.
  apply create_version_wf; [apply write_rule_wf|]; [exact Hwf| |]; exact Hlt.
Qed.

Lemma filter_negb_other {A : Type} (f g : A -> bool) (l : list A) :
  (forall a, f a = true -> g a = true) ->
  filter f (filter g l) = filter f l.
Proof.
  intros H. induction l as [|a l IH]; [reflexivity|].
  cbn. destruct (g a) eqn:G; cbn.
  - now rewrite IH.
  - destruct (f a) eqn:F; [|exact IH].
    rewrite (H a F) in G. discriminate.
Qed.

Lemma delete_wf (rid : UUID) (st : Store) : wf st -> wf (snd (delete rid st)).
Proof.
  intros Hwf. unfold delete.
  destruct (get_by_id rid st) as [old|] eqn:Hold; [|exact Hwf].
  destruct Hwf as [Hr Hv Hn]. constructor; cbn.
  - intros r Hin. apply filter_In in Hin as [Hin _]. now apply Hr.
  - intros v Hin. apply filter_In in Hin as [Hin _]. now apply Hv.
  - intros rid'. unfold version_numbers, versions_of. cbn.
    destruct (rid' =? Rule.id old)%N eqn:E.
    + apply N.eqb_eq in E. subst rid'.
      rewrite filter_filter_nil; [reflexivity|].
      intros a Ha. now rewrite Ha.
    + rewrite filter_negb_other; [apply Hn|].
      intros a Ha. apply N.eqb_eq in Ha. rewrite Ha.
      apply negb_true_iff. exact E.
Qed.

Lemma toggle_active_wf (rid : UUID) (b : bool) (u : UUID) (st : Store) :
  wf st -> wf (snd (toggle_active rid b u st)).
Proof.
  intros Hwf. unfold toggle_active.
  destruct (get_by_id rid st) as [old|] eqn:Hold; [|exact Hwf].
  apply get_by_id_id in Hold as [Hid Hin]. cbn [snd].
  apply write_rule_wf; [exact Hwf|]. cbn. now apply (wf_rules st Hwf).
Qed.

Lemma empty_store_wf : wf empty_store.
Proof. constructor; cbn; try contradiction. reflexivity. Qed.

Lemma step_wf (st : Store) (o : op) : wf st -> wf (step st o).
Proof.
  intros Hwf. destruct o as [data u|rid data u|rid|rid b u]; cbn.
  - exact Hwf.
  - now apply update_wf.
  - now apply delete_wf.
  - now apply toggle_active_wf.
Qed.

Lemma run_wf (ops : list op) (st : Store) : wf st -> wf (run ops st).
Proof.
  revert st. induction ops as [|o ops IH]; intros st Hwf; [exact Hwf|].
  cbn. apply IH. now apply step_wf.
Qed.

End History.

(** The number [_create_version] gives to the first version of a rule. *)
Lemma first_version_number (rule : Rule.t) (u : UUID) (d : string) (st : Store) :
  versions_of (Rule.id rule) st = [] ->
  RuleVersion.version_number (fst (_create_version rule u d st)) = 1.
Proof. intros H. cbn. unfold max_version. rewrite H. reflexivity. Qed.

(** C7, at every creation: [create] raises [AttributeError] while it
    evaluates the arguments of [Rule(...)], at [data.is_active], before the
    row is added and before [_create_version] is called; no rule and no
    version 1 come of it, whatever the request and the table, and the
    endpoint passes the exception on. *)
Theorem creation_writes_no_version
    (data : RuleCreate.t) (u : UUID) (st : Store) :
  create data u st = Raise AttributeError
  /\ run [Create data u] st = st
  /\ create_rule data admin empty_store
     = (Unhandled AttributeError, empty_store).
Proof. repeat split; reflexivity. Qed.

(** ** The catalog query *)

Section Catalog.

Lemma insert_by_priority_perm (r : Rule.t) (l : list Rule.t) :
  Permutation (insert_by_priority r l) (r :: l).
Proof.
  induction l as [|x l IH]; cbn; [apply Permutation_refl|].
  destruct (Rule.priority r <=? Rule.priority x).
  - apply Permutation_refl.
  - eapply perm_trans; [apply perm_skip, IH|apply perm_swap].
Qed.

Lemma order_by_priority_perm (l : list Rule.t) :
  Permutation (order_by_priority l) l.
Proof.
  induction l as [|x l IH]; cbn; [apply perm_nil|].
  eapply perm_trans; [apply insert_by_priority_perm|now apply perm_skip].
Qed.

Lemma insert_by_priority_sorted (r : Rule.t) (l : list Rule.t) :
  StronglySorted priority_le l ->
  StronglySorted priority_le (insert_by_priority r l).
Proof.
  induction l as [|x l IH]; intros Hs; cbn.
  - constructor; constructor.
  - inversion Hs as [|? ? Hs' Hall]; subst.
    destruct (Rule.priority r <=? Rule.priority x) eqn:E.
    + apply Z.leb_le in E. constructor; [exact Hs|].
      constructor; [exact E|].
      eapply Forall_impl; [|exact Hall].
      unfold priority_le. intros a Ha. lia.
    + apply Z.leb_gt in E. constructor; [now apply IH|].
      eapply Permutation_Forall.
      * apply Permutation_sym, insert_by_priority_perm.
      * constructor; [unfold priority_le; lia|exact Hall].
Qed.

Lemma order_by_priority_sorted (l : list Rule.t) :
  StronglySorted priority_le (order_by_priority l).
Proof.
  induction l as [|x l IH]; cbn; [constructor|].
  now apply insert_by_priority_sorted.
Qed.

End Catalog.

(** C6, as stated, fails: the table holds two active rules of priority
    10, [A_RULE] and [B_RULE].  The query orders by priority alone; when
    it visits the rows in reverse it returns [B_RULE] before [A_RULE], an
    answer which is in ascending order of priority and not in order of
    code.  (Visiting them in table order gives [A_RULE] first: the order
    among equal priorities is the database's, not the code's.) *)
Lemma equal_priority_not_ordered_by_code :
  (forall l : list Rule.t, Permutation (rev l) l)
  /\ map Rule.rule_code (get_active_rules (@rev Rule.t) 1700000000 None tied)
     = ["B_RULE"; "A_RULE"]
  /\ map Rule.rule_code (get_active_rules (fun l => l) 1700000000 None tied)
     = ["A_RULE"; "B_RULE"]
  /\ StronglySorted priority_le
       (get_active_rules (@rev Rule.t) 1700000000 None tied)
  /\ ~ StronglySorted priority_code_le
         (get_active_rules (@rev Rule.t) 1700000000 None tied).
Proof.
  split; [intros l; apply Permutation_sym, Permutation_rev|].
  split; [reflexivity|]. split; [reflexivity|]. split.
  - cbn. repeat constructor; unfold priority_le; cbn; lia.
  - intros H. cbn in H.
    inversion H as [|? ? _ Hall]; subst.
    inversion Hall as [|? ? Hle _]; subst.
    destruct Hle as [Hlt|[_ Hcode]]; cbn in *; [lia|discriminate].
Qed.

(** C6, amended: in whatever order the database visits the rows, the
    query returns exactly the rules that are active, of the requested
    type when one is given, and whose effective window contains the
    instant of the call (so a rule whose [effective_to] lies before it is
    left out even when active), each as often as it is in the table, in
    ascending order of priority; the order among rules of equal priority
    is not fixed by the rule code. *)
Theorem get_active_rules_filtered_and_sorted
    (scan : list Rule.t -> list Rule.t)
    (now : datetime) (rule_type : option RuleType) (st : Store) :
  (forall l, Permutation (scan l) l) ->
  let result := get_active_rules scan now rule_type st in
  (forall r,
      In r result <->
      In r (rules st)
      /\ Rule.is_active r = true
      /\ (match Rule.effective_from r with
          | None => True | Some t => t <= now end)
      /\ (match Rule.effective_to r with
          | None => True | Some t => now <= t end)
      /\ (match rule_type with
          | None => True | Some ty => Rule.rule_type r = ty end))
  /\ Permutation result (filter (selected now rule_type) (rules st))
  /\ StronglySorted priority_le result
  /\ (forall r t,
        Rule.effective_to r = Some t -> t < now -> ~ In r result).
Proof.
  intros Hscan result.
  assert (Hperm : Permutation result
                    (filter (selected now rule_type) (rules st))).
  { unfold result, get_active_rules.
    eapply perm_trans; [apply order_by_priority_perm|apply Hscan]. }
  assert (Hsel : forall r, In r result <->
                           In r (rules st) /\ selected now rule_type r = true).
  { intros r. rewrite <- filter_In. split; intros H.
    - eapply Permutation_in; [exact Hperm|exact H].
    - eapply Permutation_in; [apply Permutation_sym, Hperm|exact H]. }
  split; [|split; [exact Hperm|split; [apply order_by_priority_sorted|]]].
  - intros r. rewrite Hsel. unfold selected, in_window, of_type.
    rewrite !andb_true_iff.
    destruct (Rule.effective_from r) as [f|], (Rule.effective_to r) as [t|],
      rule_type as [ty|];
      rewrite ?Z.leb_le;
      try (assert (Hty : RuleType_eqb (Rule.rule_type r) ty = true
                         <-> Rule.rule_type r = ty)
             by (destruct (Rule.rule_type r), ty; cbn; split;
                 congruence);
           rewrite Hty);
      tauto.
  - intros r t Ht Hlt Hin. apply Hsel in Hin as [_ Hs].
    unfold selected, in_window in Hs. rewrite Ht in Hs.
    rewrite !andb_true_iff in Hs. destruct Hs as [[_ [_ Hs]] _].
    apply Z.leb_le in Hs. lia.
Qed.

Lemma get_active_rules_filtered_and_sorted_witness :
  In lapsed (rules with_lapsed)
  /\ Rule.is_active lapsed = true
  /\ Rule.effective_to lapsed = Some 1800000000
  /\ 1800000000 < 1900000000
  /\ ~ In lapsed
          (get_active_rules (@rev Rule.t) 1900000000 None with_lapsed)
  /\ In high_amount_rule
        (get_active_rules (@rev Rule.t) 1900000000 None with_lapsed).
Proof.
  pose proof (get_active_rules_filtered_and_sorted (@rev Rule.t)
                1900000000 None with_lapsed
                (fun l => Permutation_sym (Permutation_rev l)))
    as (Hmem & _ & _ & Hout).
  split; [right; left; reflexivity|].
  split; [reflexivity|]. split; [reflexivity|]. split; [reflexivity|].
  split.
  - exact (Hout lapsed 1800000000 eq_refl eq_refl).
  - apply Hmem. cbn. repeat split; auto.
Defined.

(** ** The execution pipeline *)

Section Pipeline.

Variable ctx : context.

Lemma pipeline_loop (l : list Rule.t) (evs : list Evaluation)
    (acts : list ActionType) :
  fold_left (pipeline_step ctx) l (evs, acts) =
    ((evs ++ map (fun r => evaluate_rule r ctx) l)%list,
     (acts ++ map Rule.action_type (filter (condition_matched ctx) l))%list).
Proof.
  revert evs acts. induction l as [|r l IH]; intros evs acts; cbn.
  - now rewrite !app_nil_r.
  - unfold pipeline_step at 2. cbn [fst snd].
    rewrite evaluate_rule_matched. fold (condition_matched ctx r).
    destruct (condition_matched ctx r); rewrite IH, <- !app_assoc; reflexivity.
Qed.

Lemma run_pipeline_unfold (l : list Rule.t) :
  run_pipeline l ctx =
    {| evaluations := map (fun r => evaluate_rule r ctx) l;
       final_outcome :=
         resolve_outcome
           (map Rule.action_type (filter (condition_matched ctx) l));
       rules_matched_count :=
         List.length (filter (condition_matched ctx) l) |}.
Proof.
  unfold run_pipeline. rewrite pipeline_loop. cbn. now rewrite length_map.
Qed.

Lemma matched_action_exists (a : ActionType) (l : list Rule.t) :
  existsb (ActionType_eqb a)
    (map Rule.action_type (filter (condition_matched ctx) l))
  = some_match ctx a l.
Proof.
  unfold some_match. induction l as [|r l IH]; [reflexivity|].
  cbn. destruct (condition_matched ctx r); cbn; rewrite IH; [|reflexivity].
  f_equal. destruct a, (Rule.action_type r); reflexivity.
Qed.

Lemma some_match_perm (a : ActionType) (l l' : list Rule.t) :
  Permutation l l' -> some_match ctx a l = some_match ctx a l'.
Proof.
  intros H. unfold some_match.
  induction H as [|x l l' _ IH|x y l|l l' l'' _ IH1 _ IH2]; cbn.
  - reflexivity.
  - now rewrite IH.
  - rewrite !orb_assoc. f_equal. apply orb_comm.
  - now rewrite IH1.
Qed.

Lemma matched_count_perm (l l' : list Rule.t) :
  Permutation l l' ->
  List.length (filter (condition_matched ctx) l)
  = List.length (filter (condition_matched ctx) l').
Proof.
  intros H.
  induction H as [|x l l' _ IH|x y l|l l' l'' _ IH1 _ IH2]; cbn.
  - reflexivity.
  - destruct (condition_matched ctx x); cbn; now rewrite IH.
  - destruct (condition_matched ctx x), (condition_matched ctx y); reflexivity.
  - now rewrite IH1.
Qed.

End Pipeline.

(** C1: the pipeline evaluates every rule of the list, in order, whatever
    matched before; its final outcome is DENY when some matched rule
    denies, else FLAG when some matched rule flags, else APPROVE when some
    matched rule approves, else none; the matched count is the number of
    rules whose condition matched; and neither the outcome nor the count
    changes when the same rules run in another order. *)
Theorem pipeline_outcome_precedence
    (active active' : list Rule.t) (ctx : context) :
  Permutation active active' ->
  let t := run_pipeline active ctx in
  let t' := run_pipeline active' ctx in
  evaluations t = map (fun r => evaluate_rule r ctx) active
  /\ final_outcome t =
       (if some_match ctx DENY active then Some DENY
        else if some_match ctx FLAG active then Some FLAG
        else if some_match ctx APPROVE active then Some APPROVE
        else None)
  /\ rules_matched_count t
     = List.length (filter (condition_matched ctx) active)
  /\ final_outcome t' = final_outcome t
  /\ rules_matched_count t' = rules_matched_count t.
Proof.
  intros Hperm t t'. subst t t'. rewrite !run_pipeline_unfold. cbn.
  unfold resolve_outcome. rewrite !matched_action_exists.
  rewrite <- !(some_match_perm ctx _ _ _ Hperm).
  rewrite <- (matched_count_perm ctx _ _ Hperm).
  repeat split; reflexivity.
Qed.

Lemma pipeline_outcome_precedence_witness :
  Permutation [approve_p5; deny_p10] [deny_p10; approve_p5]
  /\ final_outcome (run_pipeline [approve_p5; deny_p10] large_ab_claim)
     = Some DENY
  /\ rules_matched_count (run_pipeline [approve_p5; deny_p10] large_ab_claim)
     = 2%nat
  /\ final_outcome (run_pipeline [deny_p10; approve_p5] large_ab_claim)
     = Some DENY.
Proof.
  pose proof (pipeline_outcome_precedence
                [approve_p5; deny_p10] [deny_p10; approve_p5] large_ab_claim
                (perm_swap deny_p10 approve_p5 []))
    as (_ & H2 & H3 & H4 & _).
  split; [apply perm_swap|].
  split; [exact H2|]. split; [exact H3|].
  rewrite H4. exact H2.
Defined.

(** A context that matches no rule: no outcome, no match, and an entry in
    the trace for every rule. *)
Lemma pipeline_zero_match :
  let t := run_pipeline [approve_p5; deny_p10] [("province", VStr "BC")] in
  final_outcome t = None
  /\ rules_matched_count t = 0%nat
  /\ map matched (evaluations t) = [false; false].
Proof. repeat split; reflexivity. Qed.

(** ** Writing rows and versions *)

Section Writes.

Lemma fold_max_ge (l : list Z) (x0 x : Z) :
  x <= x0 \/ In x l -> x <= fold_left Z.max l x0.
Proof.
  revert x0. induction l as [|y l IH]; intros x0 H; cbn.
  - destruct H as [H|[]]. exact H.
  - apply IH. destruct H as [H|[->|H]]; [left; lia|left; lia|now right].
Qed.

Lemma max_version_sql (rid : UUID) (st : Store) :
  max_version rid st =
    or_default (sql_max (version_numbers rid st)) 0.
Proof.
  unfold max_version, version_numbers.
  destruct (sql_max _) as [m|]; [|reflexivity].
  cbn. destruct (m =? 0) eqn:E; [apply Z.eqb_eq in E; now subst|reflexivity].
Qed.

Lemma max_version_ge (rid : UUID) (st : Store) (w : RuleVersion.t) :
  In w (versions_of rid st) ->
  RuleVersion.version_number w <= max_version rid st.
Proof.
  intros Hin. rewrite max_version_sql. unfold version_numbers.
  apply (in_map RuleVersion.version_number) in Hin.
  destruct (map RuleVersion.version_number (versions_of rid st)) as [|x l];
    [contradiction|].
  cbn. apply fold_max_ge. destruct Hin as [->|Hin]; [left; lia|now right].
Qed.

Lemma max_version_create_version
    (rule : Rule.t) (u : UUID) (d : string) (st : Store) :
  max_version (Rule.id rule) (snd (_create_version rule u d st))
  = max_version (Rule.id rule) st + 1.
Proof.
  rewrite (max_version_sql _ (snd _)), create_version_numbers, sql_max_snoc.
  rewrite max_version_sql.
  destruct (sql_max (version_numbers (Rule.id rule) st)); cbn; lia.
Qed.

Lemma get_by_id_write_rule (rid : UUID) (st : Store) (old new : Rule.t) :
  get_by_id rid st = Some old ->
  Rule.id new = rid ->
  get_by_id rid (write_rule new st) = Some new.
Proof.
  unfold get_by_id, write_rule. cbn. intros H Hn. subst rid.
  induction (rules st) as [|r l IH]; [discriminate|].
  cbn in *. destruct (Rule.id r =? Rule.id new)%N eqn:E.
  - now rewrite N.eqb_refl.
  - rewrite E. now apply IH.
Qed.

Lemma find_app_found {A : Type} (f : A -> bool) (l l' : list A) (a : A) :
  find f l = Some a -> find f (l ++ l') = Some a.
Proof.
  induction l as [|x l IH]; [discriminate|].
  cbn. destruct (f x); [trivial|exact IH].
Qed.

Lemma update_found
    (rid u : UUID) (data : RuleUpdate.t) (st : Store) (old : Rule.t) :
  get_by_id rid st = Some old ->
  exists d,
    update rid data u st =
      (Some (apply_update old data u),
       snd (_create_version (apply_update old data u) u d
              (write_rule (apply_update old data u) st))).
Proof.
  intros Hr. unfold update. rewrite Hr. eexists. reflexivity.
Qed.

End Writes.

Lemma get_by_id_create_version
    (rid : UUID) (rule : Rule.t) (u : UUID) (d : string) (st : Store) :
  get_by_id rid (snd (_create_version rule u d st)) = get_by_id rid st.
Proof. reflexivity. Qed.

Lemma version_numbers_write_rule (rid : UUID) (new : Rule.t) (st : Store) :
  version_numbers rid (write_rule new st) = version_numbers rid st.
Proof. reflexivity. Qed.

Lemma max_version_write_rule (rid : UUID) (new : Rule.t) (st : Store) :
  max_version rid (write_rule new st) = max_version rid st.
Proof. reflexivity. Qed.

(** ** Rollback *)

(** C3, at every rollback: for an admin and a rule that exists, whatever
    the version asked for, [rollback_rule] ends in the [AttributeError] of
    the missing [RuleService.rollback]; the rule keeps its fields, no
    version is appended, and the table is the one the request found.
    This holds of every request: no call of the endpoint changes the
    table. *)
Theorem rollback_rule_raises :
  rollback_rule 0%N 1%N admin seeded = (Unhandled AttributeError, seeded)
  /\ get_by_id 0%N (snd (rollback_rule 0%N 1%N admin seeded))
     = Some high_amount_rule
  /\ rule_versions (snd (rollback_rule 0%N 1%N admin seeded))
     = [first_version 1%N high_amount_rule]
  /\ (forall rid vid user st,
        snd (rollback_rule rid vid user st) = st
        /\ forall r, fst (rollback_rule rid vid user st) <> Response r).
Proof.
  split; [reflexivity|]. split; [reflexivity|]. split; [reflexivity|].
  intros rid vid user st. unfold rollback_rule.
  destruct (negb (is_admin user)); [split; [reflexivity|discriminate]|].
  destruct (get_by_id rid st); split; try reflexivity; discriminate.
Qed.

(** * Further properties of the service and the endpoints *)

(** ** The evaluator *)

Section Conditions.

Variable ctx : context.

Lemma mapM_Ok {A B : Type} (f : A -> res B) (l : list A) (bs : list B) :
  mapM f l = Ok bs <-> Forall2 (fun x b => f x = Ok b) l bs.
Proof.
  revert bs. induction l as [|x l IH]; intros bs; cbn.
  - split; intros H.
    + inversion H. constructor.
    + inversion H. reflexivity.
  - destruct (f x) as [b|e] eqn:Fx; cbn.
    + destruct (mapM f l) as [bs'|e] eqn:M; cbn.
      * split; intros H.
        -- inversion H. subst. constructor; [exact Fx|]. now apply IH.
        -- inversion H as [|? ? ? bs'' Hb Hl]; subst.
           apply IH in Hl. rewrite Fx in Hb. congruence.
      * split; intros H; [discriminate|].
        inversion H as [|? ? ? bs'' _ Hl]; subst.
        apply IH in Hl. discriminate.
    + split; intros H; [discriminate|].
      inversion H as [|? ? ? ? Hb _]; subst. rewrite Fx in Hb. discriminate.
Qed.

Lemma mapM_raises {A B : Type} (f : A -> res B) (l : list A) (x : A) (e : exn) :
  In x l -> f x = Raise e -> exists e', mapM f l = Raise e'.
Proof.
  intros Hin Hx. induction l as [|y l IH]; [contradiction|].
  cbn. destruct Hin as [->|Hin].
  - rewrite Hx. cbn. eauto.
  - destruct (f y); cbn; [|eauto].
    destruct (IH Hin) as [e' ->]. cbn. eauto.
Qed.

Lemma not_a_dict_raises (s : string) :
  evaluate_comparison (VStr s) ctx = Raise AttributeError.
Proof. reflexivity. Qed.

Lemma lookup_truthy (d : list (string * value)) (k : string) (v : value) :
  lookup k d = Some v -> truthy (VDict d) = true.
Proof. destruct d; [discriminate|reflexivity]. Qed.

Lemma conditions_on_list (d : list (string * value)) (x : value)
    (l : list value) :
  lookup "rules" d = Some (VList (x :: l)) ->
  _evaluate_conditions (VDict d) ctx =
    (results <- mapM (fun rule => evaluate_comparison rule ctx) (x :: l) ;;
     if is_str (connective d) "and" then Ok (forallb (fun b => b) results)
     else if is_str (connective d) "or" then Ok (existsb (fun b => b) results)
     else Ok false).
Proof.
  intros H. unfold _evaluate_conditions.
  rewrite (lookup_truthy d _ _ H). unfold get. rewrite H. reflexivity.
Qed.

Lemma all_true (l : list value) (bs : list bool) :
  Forall2 (fun x b => evaluate_comparison x ctx = Ok b) l bs ->
  (forallb (fun b => b) bs = true
   <-> Forall (fun x => evaluate_comparison x ctx = Ok true) l).
Proof.
  induction 1 as [|x b l bs Hx _ IH]; cbn.
  - split; [constructor|reflexivity].
  - rewrite andb_true_iff, IH. split.
    + intros [-> Hl]. now constructor.
    + intros Hl. inversion Hl as [|? ? Hx' Hl']; subst.
      split; [congruence|exact Hl'].
Qed.

Lemma some_true (l : list value) (bs : list bool) :
  Forall2 (fun x b => evaluate_comparison x ctx = Ok b) l bs ->
  (existsb (fun b => b) bs = true
   <-> Exists (fun x => evaluate_comparison x ctx = Ok true) l).
Proof.
  induction 1 as [|x b l bs Hx _ IH]; cbn.
  - split; [discriminate|intros H; inversion H].
  - rewrite orb_true_iff, IH. split.
    + intros [->|Hl]; [now left|now right].
    + intros Hl. inversion Hl as [? ? Hx'|? ? Hl']; subst;
        [left; congruence|now right].
Qed.

Lemma all_evaluate (l : list value) :
  Forall (fun x => exists b, evaluate_comparison x ctx = Ok b) l ->
  exists bs, Forall2 (fun x b => evaluate_comparison x ctx = Ok b) l bs.
Proof.
  induction 1 as [|x l [b Hb] _ [bs IH]].
  - exists []. constructor.
  - exists (b :: bs). now constructor.
Qed.

Lemma all_evaluated (l : list value) (bs : list bool) :
  Forall2 (fun x b => evaluate_comparison x ctx = Ok b) l bs ->
  Forall (fun x => exists b, evaluate_comparison x ctx = Ok b) l.
Proof. induction 1; constructor; eauto. Qed.

End Conditions.

(** When a condition matches: it is a dict whose [rules] is a non-empty
    list; under the connective "and" (also the default) every comparison
    evaluates to true; under "or" every comparison evaluates without an
    exception and one of them is true.  A condition with any other
    connective, with no rules, or with a comparison that raises, does not
    match. *)
Theorem conditions_match_iff (c : value) (ctx : context) :
  _evaluate_conditions c ctx = Ok true <->
  exists d l,
    c = VDict d
    /\ lookup "rules" d = Some (VList l)
    /\ l <> []
    /\ ((is_str (connective d) "and" = true
         /\ Forall (fun x => evaluate_comparison x ctx = Ok true) l)
        \/ (is_str (connective d) "or" = true
            /\ Forall (fun x => exists b, evaluate_comparison x ctx = Ok b) l
            /\ Exists (fun x => evaluate_comparison x ctx = Ok true) l)).
Proof.
  split.
  - intros H.
    destruct c as [| b | z | s | l0 | d];
      try (unfold _evaluate_conditions in H;
           match type of H with
           | (if negb (truthy ?v) then _ else _) = _ =>
               destruct (truthy v); cbn in H; discriminate
           end).
    destruct (lookup "rules" d) as [r|] eqn:Hr.
    2:{ rewrite (no_rules_no_match ctx d Hr) in H. discriminate. }
    assert (Hd : truthy (VDict d) = true) by exact (lookup_truthy d _ _ Hr).
    destruct r as [| b | z | s | l | d'].
    + unfold _evaluate_conditions, get in H. rewrite Hd, Hr in H.
      discriminate.
    + unfold _evaluate_conditions, get in H. rewrite Hd, Hr in H.
      destruct b; discriminate.
    + unfold _evaluate_conditions, get in H. rewrite Hd, Hr in H.
      cbn in H. destruct (z =? 0); discriminate.
    + (* a string: its characters have no [get] *)
      unfold _evaluate_conditions, get in H. rewrite Hd, Hr in H.
      destruct s as [|a s]; cbn in H; discriminate.
    + destruct l as [|x l].
      { rewrite (empty_rules_no_match ctx d Hr) in H. discriminate. }
      rewrite (conditions_on_list ctx d x l Hr) in H.
      destruct (mapM (fun rule => evaluate_comparison rule ctx) (x :: l))
        as [bs|e] eqn:M; [|discriminate].
      apply mapM_Ok in M. cbn [bind] in H.
      exists d, (x :: l). split; [reflexivity|]. split; [exact Hr|].
      split; [discriminate|].
      destruct (is_str (connective d) "and") eqn:Ea.
      * left. split; [reflexivity|].
        apply (all_true ctx _ _ M). now inversion H.
      * destruct (is_str (connective d) "or") eqn:Eo; [|discriminate].
        right. split; [reflexivity|]. split.
        -- exact (all_evaluated ctx _ _ M).
        -- apply (some_true ctx _ _ M). now inversion H.
    + (* a dict: its keys have no [get] *)
      unfold _evaluate_conditions, get in H. rewrite Hd, Hr in H.
      destruct d' as [|[k v] d']; cbn in H; discriminate.
  - intros (d & l & -> & Hr & Hne & Hc).
    destruct l as [|x l]; [contradiction|].
    rewrite (conditions_on_list ctx d x l Hr).
    destruct Hc as [[Ha Hall]|[Ho [Hall Hex]]].
    + assert (Hall' : Forall (fun y => exists b,
                          evaluate_comparison y ctx = Ok b) (x :: l))
        by (eapply Forall_impl; [|exact Hall]; cbn; eauto).
      destruct (all_evaluate ctx _ Hall') as [bs M].
      pose proof (proj2 (mapM_Ok _ _ _) M) as ->. cbn [bind].
      rewrite Ha. f_equal. now apply (all_true ctx _ _ M).
    + destruct (all_evaluate ctx _ Hall) as [bs M].
      pose proof (proj2 (mapM_Ok _ _ _) M) as ->. cbn [bind].
      destruct (is_str (connective d) "and") eqn:Ea.
      * exfalso. unfold is_str in Ea, Ho.
        destruct (connective d); try discriminate.
        apply String.eqb_eq in Ea, Ho. congruence.
      * rewrite Ho. f_equal. now apply (some_true ctx _ _ M).
Qed.

(** The comparisons of a condition are all evaluated before the
    connective is looked at: when any one of them raises, whatever the
    others give and whatever the connective, the rule does not match and
    its result carries an error. *)
Theorem raising_comparison_voids_rule
    (rule : Rule.t) (ctx : context) (d : list (string * value))
    (l : list value) (x : value) (e : exn) :
  Rule.condition_logic rule = VDict d ->
  lookup "rules" d = Some (VList l) ->
  In x l ->
  evaluate_comparison x ctx = Raise e ->
  (exists e', _evaluate_conditions (VDict d) ctx = Raise e'
              /\ error (evaluate_rule rule ctx) = Some e')
  /\ matched (evaluate_rule rule ctx) = false
  /\ action (evaluate_rule rule ctx) = None.
Proof.
  intros Hc Hr Hin Hx.
  destruct l as [|y l]; [contradiction|].
  destruct (mapM_raises (fun r => evaluate_comparison r ctx) _ x e Hin Hx)
    as [e' He'].
  assert (H : _evaluate_conditions (VDict d) ctx = Raise e').
  { rewrite (conditions_on_list ctx d y l Hr), He'. reflexivity. }
  unfold evaluate_rule. rewrite Hc, H. cbn.
  split; [exists e'; split; reflexivity|]. split; reflexivity.
Qed.

Lemma raising_comparison_voids_rule_witness :
  let cond :=
    VDict [("operator", VStr "or");
           ("rules",
            VList [VDict [("field", VStr "province");
                          ("operator", VStr "equals");
                          ("value", VStr "AB")];
                   VDict [("field", VStr "amount");
                          ("operator", VStr "greater_than");
                          ("value", VStr "high")]])] in
  evaluate_comparison
    (VDict [("field", VStr "province"); ("operator", VStr "equals");
            ("value", VStr "AB")]) large_ab_claim = Ok true
  /\ matched (evaluate_rule (rule_with "R" 1 FLAG cond) large_ab_claim)
     = false.
Proof.
  split; [reflexivity|].
  exact (proj1 (proj2
    (raising_comparison_voids_rule
       (rule_with "R" 1 FLAG
          (VDict [("operator", VStr "or");
                  ("rules",
                   VList [VDict [("field", VStr "province");
                                 ("operator", VStr "equals");
                                 ("value", VStr "AB")];
                          VDict [("field", VStr "amount");
                                 ("operator", VStr "greater_than");
                                 ("value", VStr "high")]])]))
       large_ab_claim _ _
       (VDict [("field", VStr "amount"); ("operator", VStr "greater_than");
               ("value", VStr "high")])
       TypeError eq_refl eq_refl (or_intror (or_introl eq_refl)) eq_refl))).
Defined.

(** A context value that Python takes for false (zero, the empty string,
    [False], an empty list or dict, [None], or no value at all) never
    satisfies [greater_than], [less_than], [contains] or [in], and never
    makes them raise, whatever the condition's value is. *)
Theorem falsy_context_value_never_matches
    (ctx : context) (entry : list (string * value)) (op : string)
    (cv : value) :
  lookup "operator" entry = Some (VStr op) ->
  In op ["greater_than"; "less_than"; "contains"; "in"] ->
  context_get ctx (or_default (lookup "field" entry) VNone) = Ok cv ->
  truthy cv = false ->
  evaluate_comparison (VDict entry) ctx = Ok false.
Proof.
  intros Ho Hin Hcv Ht. unfold evaluate_comparison, get. cbn [bind].
  fold (or_default (lookup "field" entry) VNone).
  rewrite Hcv, Ho. cbn [bind or_default].
  destruct Hin as [<-|[<-|[<-|[<-|[]]]]]; cbn [is_str String.eqb];
    cbn; rewrite Ht; reflexivity.
Qed.

Lemma falsy_context_value_never_matches_witness :
  contains (VInt 0) (VList [VInt 0; VInt 1]) = Ok true
  /\ evaluate_comparison
       (VDict [("field", VStr "units"); ("operator", VStr "in");
               ("value", VList [VInt 0; VInt 1])])
       [("units", VInt 0)] = Ok false.
Proof.
  split; [reflexivity|].
  exact (falsy_context_value_never_matches
           [("units", VInt 0)]
           [("field", VStr "units"); ("operator", VStr "in");
            ("value", VList [VInt 0; VInt 1])]
           "in" (VInt 0) eq_refl
           (or_intror (or_intror (or_intror (or_introl eq_refl))))
           eq_refl eq_refl).
Defined.

(** ** Rows and their keys *)

Section Rows.

Lemma find_by_key {A K : Type} (key : A -> K) (eqb : K -> K -> bool)
    (l : list A) (r : A) :
  (forall a b, eqb a b = true <-> a = b) ->
  NoDup (map key l) -> In r l ->
  find (fun x => eqb (key x) (key r)) l = Some r.
Proof.
  intros Heqb. induction l as [|a l IH]; cbn; intros Hnd Hin; [contradiction|].
  inversion Hnd as [|? ? Hnotin Hnd']; subst.
  destruct Hin as [->|Hin].
  - now rewrite (proj2 (Heqb _ _) eq_refl).
  - destruct (eqb (key a) (key r)) eqn:E; [|now apply IH].
    apply Heqb in E. exfalso. apply Hnotin. rewrite E. now apply in_map.
Qed.

Lemma get_by_id_In (st : Store) (r : Rule.t) :
  NoDup (map Rule.id (rules st)) -> In r (rules st) ->
  get_by_id (Rule.id r) st = Some r.
Proof.
  intros Hnd Hin. unfold get_by_id.
  apply (find_by_key Rule.id N.eqb); [apply N.eqb_eq|exact Hnd|exact Hin].
Qed.

Lemma get_by_code_In (st : Store) (r : Rule.t) :
  NoDup (map Rule.rule_code (rules st)) -> In r (rules st) ->
  get_by_code (Rule.rule_code r) st = Some r.
Proof.
  intros Hnd Hin. unfold get_by_code.
  apply (find_by_key Rule.rule_code String.eqb);
    [apply String.eqb_eq|exact Hnd|exact Hin].
Qed.

Lemma unique_row (st : Store) (r r' : Rule.t) :
  NoDup (map Rule.id (rules st)) ->
  In r (rules st) -> In r' (rules st) -> Rule.id r = Rule.id r' -> r = r'.
Proof.
  intros Hnd Hr Hr' Hid.
  pose proof (get_by_id_In st r Hnd Hr) as H1.
  pose proof (get_by_id_In st r' Hnd Hr') as H2.
  rewrite Hid in H1. congruence.
Qed.

Lemma get_by_code_none (c : string) (st : Store) :
  get_by_code c st = None -> ~ In c (map Rule.rule_code (rules st)).
Proof.
  unfold get_by_code. intros H Hin.
  apply in_map_iff in Hin as (r & Hc & Hin).
  pose proof (find_none _ _ H r Hin) as Hf. cbn in Hf.
  rewrite Hc, String.eqb_refl in Hf. discriminate.
Qed.

Lemma NoDup_map_filter {A K : Type} (key : A -> K) (p : A -> bool)
    (l : list A) :
  NoDup (map key l) -> NoDup (map key (filter p l)).
Proof.
  induction l as [|a l IH]; cbn; intros Hnd; [constructor|].
  inversion Hnd as [|? ? Hnotin Hnd']; subst.
  destruct (p a); cbn; [|now apply IH].
  constructor; [|now apply IH].
  intros Hin. apply Hnotin.
  apply in_map_iff in Hin as (x & Hx & Hin).
  apply filter_In in Hin as [Hin _]. rewrite <- Hx. now apply in_map.
Qed.

Lemma write_rule_ids (new : Rule.t) (st : Store) :
  map Rule.id (rules (write_rule new st)) = map Rule.id (rules st).
Proof.
  cbn. rewrite map_map. apply map_ext. intros r.
  destruct (Rule.id r =? Rule.id new)%N eqn:E; [|reflexivity].
  apply N.eqb_eq in E. now rewrite E.
Qed.

Lemma write_rule_codes (new old : Rule.t) (st : Store) :
  NoDup (map Rule.id (rules st)) -> In old (rules st) ->
  Rule.id new = Rule.id old -> Rule.rule_code new = Rule.rule_code old ->
  map Rule.rule_code (rules (write_rule new st))
  = map Rule.rule_code (rules st).
Proof.
  intros Hnd Hold Hid Hcode. cbn. rewrite map_map. apply map_ext_in.
  intros r Hr. destruct (Rule.id r =? Rule.id new)%N eqn:E; [|reflexivity].
  apply N.eqb_eq in E. rewrite Hid in E.
  rewrite (unique_row st r old Hnd Hr Hold E). exact Hcode.
Qed.

Lemma write_rule_rows (new : Rule.t) (st : Store) (r : Rule.t) :
  In r (rules (write_rule new st)) ->
  r = new \/ (In r (rules st) /\ Rule.id r <> Rule.id new).
Proof.
  cbn. intros Hin. apply in_map_iff in Hin as (x & Hx & Hin).
  destruct (Rule.id x =? Rule.id new)%N eqn:E.
  - left. now symmetry.
  - right. subst r. split; [exact Hin|]. now apply N.eqb_neq.
Qed.

Lemma versions_of_other
    (rule : Rule.t) (u : UUID) (d : string) (st : Store) (rid : UUID) :
  rid <> Rule.id rule ->
  versions_of rid (snd (_create_version rule u d st)) = versions_of rid st.
Proof.
  intros Hne. rewrite versions_of_create_version.
  destruct (Rule.id rule =? rid)%N eqn:E;
    [apply N.eqb_eq in E; congruence|apply app_nil_r].
Qed.

Lemma owned_after_write (new old : Rule.t) (st : Store) (v : RuleVersion.t) :
  In old (rules st) -> Rule.id new = Rule.id old ->
  (exists r, In r (rules st) /\ Rule.id r = RuleVersion.rule_id v) ->
  exists r, In r (rules (write_rule new st))
            /\ Rule.id r = RuleVersion.rule_id v.
Proof.
  intros Hold Hid (r & Hr & Hv).
  assert (Hin : In (RuleVersion.rule_id v)
                   (map Rule.id (rules (write_rule new st)))).
  { rewrite write_rule_ids, <- Hv. now apply in_map. }
  apply in_map_iff in Hin as (x & Hx & Hin). eauto.
Qed.

(** Writing a row back keeps the table consistent when the row keeps its
    key, its code and the fields a version holds. *)
Lemma write_rule_consistent (new old : Rule.t) (st : Store) :
  consistent st -> In old (rules st) ->
  Rule.id new = Rule.id old -> Rule.rule_code new = Rule.rule_code old ->
  snapshot_fields new = snapshot_fields old ->
  consistent (write_rule new st).
Proof.
  intros [Hi Hc Ho Hl] Hold Hid Hcode Hsnap. constructor.
  - now rewrite write_rule_ids.
  - now rewrite (write_rule_codes new old st).
  - intros v Hv. apply (owned_after_write new old); auto.
  - intros r Hr. apply write_rule_rows in Hr as [->|[Hr _]].
    + rewrite Hid, Hsnap. now apply Hl.
    + now apply Hl.
Qed.

(** Writing a row back and then a version of it. *)
Lemma write_version_consistent
    (new old : Rule.t) (u : UUID) (d : string) (st : Store) :
  consistent st -> In old (rules st) ->
  Rule.id new = Rule.id old -> Rule.rule_code new = Rule.rule_code old ->
  consistent (snd (_create_version new u d (write_rule new st))).
Proof.
  intros [Hi Hc Ho Hl] Hold Hid Hcode. constructor.
  - change (NoDup (map Rule.id (rules (write_rule new st)))).
    now rewrite write_rule_ids.
  - change (NoDup (map Rule.rule_code (rules (write_rule new st)))).
    now rewrite (write_rule_codes new old st).
  - intros v Hv. cbn in Hv. apply in_app_or in Hv as [Hv|[<-|[]]].
    + apply (owned_after_write new old); auto.
    + exists new. split; [|reflexivity].
      apply (In_write_rule (Rule.id old) st old);
        [now apply get_by_id_In|exact Hid].
  - intros r Hr.
    change (In r (rules (write_rule new st))) in Hr.
    apply write_rule_rows in Hr as [->|[Hr Hne]].
    + rewrite versions_of_create_version, N.eqb_refl.
      eexists. eexists. split; reflexivity.
    + rewrite versions_of_other by exact Hne. now apply Hl.
Qed.

Lemma update_consistent
    (rid : UUID) (data : RuleUpdate.t) (u : UUID) (st : Store) :
  consistent st -> consistent (snd (update rid data u st)).
Proof.
  intros Hc. unfold update.
  destruct (get_by_id rid st) as [old|] eqn:Hold; [|exact Hc].
  apply get_by_id_id in Hold as [_ Hin].
  match goal with
  | |- consistent (snd (let '(_, _) := _create_version ?r ?u ?d ?s in _)) =>
      change (consistent (snd (_create_version r u d s)))
  end.
  now apply (write_version_consistent _ old).
Qed.

Lemma toggle_active_consistent
    (rid : UUID) (b : bool) (u : UUID) (st : Store) :
  consistent st -> consistent (snd (toggle_active rid b u st)).
Proof.
  intros Hc. unfold toggle_active.
  destruct (get_by_id rid st) as [old|] eqn:Hold; [|exact Hc].
  apply get_by_id_id in Hold as [_ Hin]. cbn [snd].
  now apply (write_rule_consistent _ old).
Qed.

Lemma delete_consistent (rid : UUID) (st : Store) :
  consistent st -> consistent (snd (delete rid st)).
Proof.
  intros Hcs. unfold delete.
  destruct (get_by_id rid st) as [old|] eqn:Hold; [|exact Hcs].
  destruct Hcs as [Hi Hc Ho Hl]. constructor; cbn.
  - now apply NoDup_map_filter.
  - now apply NoDup_map_filter.
  - intros v Hv. apply filter_In in Hv as [Hv Hne].
    destruct (Ho v Hv) as (r & Hr & Hrv). exists r. split; [|exact Hrv].
    apply filter_In. split; [exact Hr|]. now rewrite Hrv.
  - intros r Hr. apply filter_In in Hr as [Hr Hne].
    destruct (Hl r Hr) as (l & v & Hv & Hf). exists l, v. split; [|exact Hf].
    rewrite <- Hv. unfold versions_of. cbn.
    apply filter_negb_other. intros a Ha. apply N.eqb_eq in Ha.
    now rewrite Ha.
Qed.

Lemma run_wf_consistent (ops : list op) (st : Store) :
  wf st -> consistent st ->
  wf (run ops st) /\ consistent (run ops st).
Proof.
  revert st. induction ops as [|o ops IH]; intros st Hwf Hc; [now split|].
  cbn. apply IH; [now apply step_wf|].
  destruct o as [data u|rid data u|rid|rid b u]; cbn.
  - exact Hc.
  - now apply update_consistent.
  - now apply delete_consistent.
  - now apply toggle_active_consistent.
Qed.

Lemma step_unique (st : Store) (o : op) :
  NoDup (map Rule.id (rules st)) ->
  NoDup (map Rule.rule_code (rules st)) ->
  NoDup (map Rule.id (rules (step st o)))
  /\ NoDup (map Rule.rule_code (rules (step st o))).
Proof.
  intros Hi Hc. destruct o as [data u|rid data u|rid|rid b u]; cbn.
  - now split.
  - unfold update. destruct (get_by_id rid st) as [old|] eqn:Hold;
      [|now split].
    apply get_by_id_id in Hold as [_ Hin].
    change (NoDup (map Rule.id
                     (rules (write_rule (apply_update old data u) st)))
            /\ NoDup (map Rule.rule_code
                        (rules (write_rule (apply_update old data u) st)))).
    rewrite write_rule_ids, (write_rule_codes _ old st) by auto.
    now split.
  - unfold delete. destruct (get_by_id rid st); [|now split].
    cbn. split; now apply NoDup_map_filter.
  - unfold toggle_active. destruct (get_by_id rid st) as [old|] eqn:Hold;
      [|now split].
    apply get_by_id_id in Hold as [_ Hin]. cbn [snd].
    rewrite write_rule_ids, (write_rule_codes _ old st) by auto.
    now split.
Qed.

Lemma run_unique (ops : list op) (st : Store) :
  NoDup (map Rule.id (rules st)) ->
  NoDup (map Rule.rule_code (rules st)) ->
  NoDup (map Rule.id (rules (run ops st)))
  /\ NoDup (map Rule.rule_code (rules (run ops st))).
Proof.
  revert st. induction ops as [|o ops IH]; intros st Hi Hc; [now split|].
  cbn. destruct (step_unique st o Hi Hc) as [Hi' Hc']. now apply IH.
Qed.

Lemma seeded_wf : wf seeded.
Proof.
  constructor.
  - intros r [<-|[]]. reflexivity.
  - intros v [<-|[]]. reflexivity.
  - intros rid. unfold version_numbers, versions_of. cbn.
    destruct rid; reflexivity.
Qed.

Lemma seeded_consistent : consistent seeded.
Proof.
  constructor.
  - cbn. repeat constructor. intros [].
  - cbn. repeat constructor. intros [].
  - intros v [<-|[]]. exists high_amount_rule. split; [now left|reflexivity].
  - intros r [<-|[]]. exists [], (first_version 1%N high_amount_rule).
    split; reflexivity.
Qed.

End Rows.

(** From a table in which no two rules share an id or a code, no series
    of service calls leads to a table in which two do, and looking a
    stored rule up by its id or by its code gives that rule back. *)
Theorem rows_stay_unique (st : Store) (ops : list op) :
  NoDup (map Rule.id (rules st)) ->
  NoDup (map Rule.rule_code (rules st)) ->
  let st' := run ops st in
  NoDup (map Rule.id (rules st'))
  /\ NoDup (map Rule.rule_code (rules st'))
  /\ (forall r, In r (rules st') ->
        get_by_id (Rule.id r) st' = Some r
        /\ get_by_code (Rule.rule_code r) st' = Some r).
Proof.
  intros Hi Hc st'. destruct (run_unique ops st Hi Hc) as [Hi' Hc'].
  fold st' in Hi', Hc'.
  split; [exact Hi'|]. split; [exact Hc'|].
  intros r Hr. split; [now apply get_by_id_In|now apply get_by_code_In].
Qed.

Lemma rows_stay_unique_witness :
  let st' := run [Update 2%N (rename_to "Renamed") 7%N;
                  ToggleActive 0%N false 7%N] tied in
  NoDup (map Rule.rule_code (rules st'))
  /\ map Rule.rule_code (rules st') = ["A_RULE"; "B_RULE"].
Proof.
  split; [|reflexivity].
  apply (rows_stay_unique tied
           [Update 2%N (rename_to "Renamed") 7%N;
            ToggleActive 0%N false 7%N]).
  - cbn. repeat constructor; cbn; intuition discriminate.
  - cbn. repeat constructor; cbn; intuition discriminate.
Defined.

(** ** The version history *)

Section Versions.

Lemma insert_version_perm (v : RuleVersion.t) (l : list RuleVersion.t) :
  Permutation (insert_version v l) (v :: l).
Proof.
  induction l as [|w l IH]; cbn; [apply Permutation_refl|].
  destruct (RuleVersion.version_number w <=? RuleVersion.version_number v).
  - apply Permutation_refl.
  - eapply perm_trans; [apply perm_skip, IH|apply perm_swap].
Qed.

Lemma insert_version_sorted (v : RuleVersion.t) (l : list RuleVersion.t) :
  StronglySorted newer_first l ->
  StronglySorted newer_first (insert_version v l).
Proof.
  induction l as [|w l IH]; intros Hs; cbn.
  - constructor; constructor.
  - inversion Hs as [|? ? Hs' Hall]; subst.
    destruct (RuleVersion.version_number w <=? RuleVersion.version_number v)
      eqn:E.
    + apply Z.leb_le in E. constructor; [exact Hs|].
      constructor; [exact E|].
      eapply Forall_impl; [|exact Hall].
      unfold newer_first. intros a Ha. lia.
    + apply Z.leb_gt in E. constructor; [now apply IH|].
      eapply Permutation_Forall.
      * apply Permutation_sym, insert_version_perm.
      * constructor; [unfold newer_first; lia|exact Hall].
Qed.

Lemma insert_version_oldest (v : RuleVersion.t) (l : list RuleVersion.t) :
  Forall (fun w => RuleVersion.version_number v
                   < RuleVersion.version_number w) l ->
  insert_version v l = (l ++ [v])%list.
Proof.
  induction 1 as [|w l Hw _ IH]; [reflexivity|].
  cbn. destruct (RuleVersion.version_number w <=? RuleVersion.version_number v)
    eqn:E; [apply Z.leb_le in E; lia|now rewrite IH].
Qed.

Lemma sorted_history_reversed (l : list RuleVersion.t) :
  StronglySorted Z.lt (map RuleVersion.version_number l) ->
  fold_right insert_version [] l = rev l.
Proof.
  induction l as [|v l IH]; intros Hs; [reflexivity|].
  cbn in Hs |- *. inversion Hs as [|? ? Hs' Hall]; subst.
  rewrite (IH Hs'). apply insert_version_oldest.
  apply Forall_rev, Forall_forall. intros w Hw.
  rewrite Forall_forall in Hall. apply Hall. now apply in_map.
Qed.

Lemma get_versions_numbered (st : Store) (rid : UUID) :
  wf st -> get_versions rid st = rev (versions_of rid st).
Proof.
  intros [_ _ Hn]. apply sorted_history_reversed.
  fold (version_numbers rid st). rewrite Hn. apply numbered_increasing.
Qed.

End Versions.

(** [get_versions] returns the versions of the rule, all of them and
    nothing else, newest first; in a table whose histories are numbered
    1, 2, ..., and in every table reached from it by service calls, that
    is the reverse of the order in which they were written, with the
    numbers n, n-1, ..., 1. *)
Theorem get_versions_newest_first :
  (forall st rid,
      Permutation (get_versions rid st) (versions_of rid st)
      /\ StronglySorted newer_first (get_versions rid st))
  /\ (forall st0 ops rid,
        wf st0 ->
        let st := run ops st0 in
        get_versions rid st = rev (versions_of rid st)
        /\ map RuleVersion.version_number (get_versions rid st)
           = rev (numbered (List.length (versions_of rid st)))).
Proof.
  split.
  - intros st rid. unfold get_versions.
    induction (versions_of rid st) as [|v l [IHp IHs]]; cbn.
    + split; constructor.
    + split.
      * eapply perm_trans; [apply insert_version_perm|now apply perm_skip].
      * now apply insert_version_sorted.
  - intros st0 ops rid Hwf0 st.
    assert (Hwf : wf st) by now apply run_wf.
    rewrite (get_versions_numbered st rid Hwf). split; [reflexivity|].
    rewrite map_rev. f_equal. apply (wf_numbers st Hwf).
Qed.

Lemma get_versions_newest_first_witness :
  map RuleVersion.version_number
    (get_versions 0%N (run [Update 0%N (rename_to "Large amount") 7%N] seeded))
  = [2; 1].
Proof.
  exact (proj2 (proj2 get_versions_newest_first seeded
                  [Update 0%N (rename_to "Large amount") 7%N] 0%N seeded_wf)).
Defined.

(** From a table whose histories are numbered 1, 2, ..., whose keys are
    unique, whose versions all belong to stored rules and whose latest
    versions hold the rules' current content, every series of service
    calls leads to a table in which each version still belongs to a rule
    of the table, and in which, for each rule, the version history
    endpoint answers with a non-empty list whose first entry carries the
    highest number and the rule's current name, type, action, condition
    logic, priority and [effective_from]. *)
Theorem latest_version_mirrors_rule (st0 : Store) (ops : list op) :
  wf st0 -> consistent st0 ->
  let st := run ops st0 in
  (forall v, In v (rule_versions st) ->
     exists r, In r (rules st) /\ Rule.id r = RuleVersion.rule_id v)
  /\ (forall r, In r (rules st) ->
        exists v older,
          get_rule_versions (Rule.id r) st = Response (v :: older)
          /\ version_fields v = snapshot_fields r
          /\ RuleVersion.version_number v
             = Z.of_nat (List.length (versions_of (Rule.id r) st))
          /\ RuleVersion.version_number v = max_version (Rule.id r) st).
Proof.
  intros Hwf0 Hc0 st.
  destruct (run_wf_consistent ops st0 Hwf0 Hc0) as [Hwf [Hi Hc Ho Hl]].
  fold st in Hwf, Hi, Hc, Ho, Hl.
  split; [exact Ho|]. intros r Hr.
  destruct (Hl r Hr) as (l & v & Hv & Hf).
  exists v, (rev l). unfold get_rule_versions.
  rewrite (get_by_id_In st r Hi Hr).
  rewrite (get_versions_numbered st (Rule.id r) Hwf).
  rewrite Hv, rev_app_distr. cbn. split; [reflexivity|]. split; [exact Hf|].
  pose proof (wf_numbers st Hwf (Rule.id r)) as Hn.
  unfold version_numbers in Hn. rewrite Hv in Hn.
  rewrite length_app, Nat.add_1_r in Hn |- *. cbn [List.length] in Hn.
  rewrite map_app, numbered_S in Hn. apply app_inj_tail in Hn as [_ Hn].
  cbn in Hn.
  assert (Hnum : RuleVersion.version_number v
                 = Z.of_nat (S (List.length l))) by lia.
  split; [exact Hnum|].
  rewrite (max_version_numbered _ _ (wf_numbers st Hwf (Rule.id r))).
  rewrite Hv, length_app, Nat.add_1_r. exact Hnum.
Qed.

Lemma latest_version_mirrors_rule_witness :
  exists v older,
    get_rule_versions 0%N
      (run [Update 0%N (rename_to "Large amount") 7%N;
            ToggleActive 0%N false 7%N] seeded)
    = Response (v :: older)
    /\ RuleVersion.rule_name v = "Large amount"
    /\ RuleVersion.version_number v = 2.
Proof.
  destruct (proj2 (latest_version_mirrors_rule seeded
              [Update 0%N (rename_to "Large amount") 7%N;
               ToggleActive 0%N false 7%N] seeded_wf seeded_consistent)
              _ (or_introl eq_refl))
    as (v & older & Hg & Hf & Hn & _).
  exists v, older. split; [exact Hg|].
  split; [now inversion Hf|exact Hn].
Defined.

(** ** The lifecycle calls *)

Section Lifecycle.

Lemma In_active (scan : list Rule.t -> list Rule.t) (now : datetime)
    (ty : option RuleType) (st : Store) (r : Rule.t) :
  (forall l, Permutation (scan l) l) ->
  In r (get_active_rules scan now ty st)
  <-> In r (rules st) /\ selected now ty r = true.
Proof.
  intros Hscan. unfold get_active_rules. rewrite <- filter_In.
  assert (Hperm : Permutation
            (order_by_priority (scan (filter (selected now ty) (rules st))))
            (filter (selected now ty) (rules st)))
    by (eapply perm_trans; [apply order_by_priority_perm|apply Hscan]).
  split; intros H.
  - eapply Permutation_in; [exact Hperm|exact H].
  - eapply Permutation_in; [apply Permutation_sym, Hperm|exact H].
Qed.

Lemma get_by_id_other_write (rid : UUID) (new : Rule.t) (st : Store) :
  rid <> Rule.id new ->
  get_by_id rid (write_rule new st) = get_by_id rid st.
Proof.
  intros Hne. unfold get_by_id, write_rule. cbn.
  induction (rules st) as [|x l IH]; [reflexivity|].
  cbn. destruct (Rule.id x =? Rule.id new)%N eqn:E.
  - apply N.eqb_eq in E.
    assert (Hx : (Rule.id x =? rid)%N = false)
      by (apply N.eqb_neq; congruence).
    assert (Hn : (Rule.id new =? rid)%N = false)
      by (apply N.eqb_neq; congruence).
    rewrite Hx, Hn. exact IH.
  - destruct (Rule.id x =? rid)%N; [reflexivity|exact IH].
Qed.

Lemma find_filter_other {A : Type} (f g : A -> bool) (l : list A) :
  (forall a, f a = true -> g a = true) ->
  find f (filter g l) = find f l.
Proof.
  intros H. induction l as [|a l IH]; [reflexivity|].
  cbn. destruct (g a) eqn:G; cbn.
  - now rewrite IH.
  - destruct (f a) eqn:F; [|exact IH].
    rewrite (H a F) in G. discriminate.
Qed.

Lemma zeros_length (n : nat) : String.length (zeros n) = n.
Proof. induction n; cbn; congruence. Qed.

Lemma append_length (s t : string) :
  String.length (s ++ t) = (String.length s + String.length t)%nat.
Proof. induction s; cbn; congruence. Qed.

Lemma zfill_length (w : nat) (s : string) :
  (w <= String.length (zfill w s))%nat.
Proof.
  unfold zfill. rewrite append_length, zeros_length. lia.
Qed.

Lemma prefix_append (p s : string) : String.prefix p (p ++ s) = true.
Proof.
  induction p as [|a p IH]; cbn; [now destruct s|].
  destruct (ascii_dec a a); [exact IH|contradiction].
Qed.

End Lifecycle.

(** A call for a rule that does not exist changes nothing: [update] and
    [toggle_active] return [None], [delete] returns [False], the update,
    read and history endpoints answer 404, and the store stays as it
    was. *)
Theorem missing_rule_changes_nothing
    (rid : UUID) (st : Store) (data : RuleUpdate.t) (b : bool) (u : UUID) :
  get_by_id rid st = None ->
  update rid data u st = (None, st)
  /\ toggle_active rid b u st = (None, st)
  /\ delete rid st = (false, st)
  /\ update_rule rid data admin st = (HTTPException 404 "Rule not found", st)
  /\ get_rule rid st = HTTPException 404 "Rule not found"
  /\ get_rule_versions rid st = HTTPException 404 "Rule not found".
Proof.
  intros H.
  unfold update, toggle_active, delete, update_rule, get_rule,
    get_rule_versions.
  rewrite H. cbn. repeat split; reflexivity.
Qed.

Lemma missing_rule_changes_nothing_witness :
  let st := run [Delete 0%N] seeded in
  update 0%N (rename_to "Large amount") 7%N st = (None, st).
Proof.
  exact (proj1 (missing_rule_changes_nothing 0%N
                  (run [Delete 0%N] seeded)
                  (rename_to "Large amount") true 7%N eq_refl)).
Defined.

(** [toggle_active] on a rule that exists sets the active flag and the
    modifier and nothing else: every other field of the rule, every other
    rule's lookup and all versions stay as they were, and no version is
    written.  After switching a rule off, no rule with that id is returned
    by [get_active_rules], at any instant, for any type filter and in
    whatever order the database visits the rows; after switching it on,
    it is returned whenever its window and type fit. *)
Theorem toggle_active_only_flips
    (rid : UUID) (b : bool) (u : UUID) (st : Store) (old : Rule.t) :
  get_by_id rid st = Some old ->
  exists r,
    toggle_active rid b u st = (Some r, write_rule r st)
    /\ get_by_id rid (write_rule r st) = Some r
    /\ Rule.is_active r = b
    /\ Rule.last_modified_by r = Some u
    /\ Rule.id r = Rule.id old
    /\ Rule.rule_code r = Rule.rule_code old
    /\ snapshot_fields r = snapshot_fields old
    /\ (Rule.description r, Rule.effective_to r,
        Rule.denial_reason_template r, Rule.flag_reason_template r,
        Rule.category r, Rule.tags r, Rule.created_by r)
       = (Rule.description old, Rule.effective_to old,
          Rule.denial_reason_template old, Rule.flag_reason_template old,
          Rule.category old, Rule.tags old, Rule.created_by old)
    /\ rule_versions (write_rule r st) = rule_versions st
    /\ (forall rid', rid' <> rid ->
          get_by_id rid' (write_rule r st) = get_by_id rid' st)
    /\ (forall scan now ty x,
          (forall l, Permutation (scan l) l) ->
          In x (get_active_rules scan now ty (write_rule r st)) ->
          Rule.id x = rid -> b = true)
    /\ (forall scan now ty,
          (forall l, Permutation (scan l) l) ->
          b = true -> in_window now old = true -> of_type ty old = true ->
          In r (get_active_rules scan now ty (write_rule r st))).
Proof.
  intros Hold. unfold toggle_active. rewrite Hold.
  eexists. split; [reflexivity|].
  pose proof (get_by_id_id _ _ _ Hold) as [Hid Hin].
  set (r := {| Rule.id := Rule.id old; Rule.is_active := b |}).
  split; [now apply (get_by_id_write_rule rid st old)|].
  do 7 (split; [reflexivity|]).
  split; [|split].
  - intros rid' Hne. apply get_by_id_other_write. cbn. congruence.
  - intros scan now ty x Hscan Hx Hxid.
    apply (In_active scan _ _ _ _ Hscan) in Hx as [Hx Hsel].
    apply write_rule_rows in Hx as [->|[_ Hne]].
    + unfold selected in Hsel. cbn in Hsel.
      now destruct b.
    + cbn in Hne. congruence.
  - intros scan now ty Hscan Hb Hw Ht.
    apply (In_active scan _ _ _ _ Hscan). split.
    + now apply (In_write_rule rid st old).
    + unfold selected. cbn. rewrite Hb.
      change (in_window now r) with (in_window now old).
      change (of_type ty r) with (of_type ty old).
      now rewrite Hw, Ht.
Qed.

Lemma toggle_active_only_flips_witness :
  exists r,
    toggle_active 0%N false 7%N seeded = (Some r, write_rule r seeded)
    /\ Rule.is_active r = false
    /\ rule_versions (write_rule r seeded) = rule_versions seeded.
Proof.
  destruct (toggle_active_only_flips 0%N false 7%N seeded high_amount_rule
              eq_refl)
    as (r & Ht & _ & Ha & _ & _ & _ & _ & _ & Hv & _).
  exists r. split; [exact Ht|]. split; [exact Ha|exact Hv].
Defined.

(** [update] on a rule that exists never changes the rule's id, code or
    creator and never changes another rule; each of the thirteen fields a
    request can name takes the value the request gives and keeps its old
    value when the request leaves it out, so an optional field that holds
    a value cannot be emptied again by an update. *)
Theorem update_keeps_identity
    (rid : UUID) (data : RuleUpdate.t) (u : UUID) (st st' : Store)
    (old r : Rule.t) :
  get_by_id rid st = Some old ->
  update rid data u st = (Some r, st') ->
  get_by_id rid st' = Some r
  /\ Rule.id r = Rule.id old
  /\ Rule.rule_code r = Rule.rule_code old
  /\ Rule.created_by r = Rule.created_by old
  /\ Rule.last_modified_by r = Some u
  /\ map Rule.id (rules st') = map Rule.id (rules st)
  /\ (forall rid', rid' <> rid -> get_by_id rid' st' = get_by_id rid' st)
  /\ updated (RuleUpdate.rule_name data) (Rule.rule_name old)
             (Rule.rule_name r)
  /\ updated_opt (RuleUpdate.description data) (Rule.description old)
                 (Rule.description r)
  /\ updated (RuleUpdate.rule_type data) (Rule.rule_type old)
             (Rule.rule_type r)
  /\ updated (RuleUpdate.action_type data) (Rule.action_type old)
             (Rule.action_type r)
  /\ updated (RuleUpdate.condition_logic data) (Rule.condition_logic old)
             (Rule.condition_logic r)
  /\ updated (RuleUpdate.priority data) (Rule.priority old) (Rule.priority r)
  /\ updated (RuleUpdate.is_active data) (Rule.is_active old)
             (Rule.is_active r)
  /\ updated_opt (RuleUpdate.effective_from data) (Rule.effective_from old)
                 (Rule.effective_from r)
  /\ updated_opt (RuleUpdate.effective_to data) (Rule.effective_to old)
                 (Rule.effective_to r)
  /\ updated_opt (RuleUpdate.denial_reason_template data)
                 (Rule.denial_reason_template old)
                 (Rule.denial_reason_template r)
  /\ updated_opt (RuleUpdate.flag_reason_template data)
                 (Rule.flag_reason_template old)
                 (Rule.flag_reason_template r)
  /\ updated_opt (RuleUpdate.category data) (Rule.category old)
                 (Rule.category r)
  /\ updated (RuleUpdate.tags data) (Rule.tags old) (Rule.tags r)
  /\ (Rule.effective_from old <> None -> Rule.effective_from r <> None)
  /\ (Rule.effective_to old <> None -> Rule.effective_to r <> None)
  /\ (Rule.description old <> None -> Rule.description r <> None)
  /\ (Rule.denial_reason_template old <> None ->
      Rule.denial_reason_template r <> None)
  /\ (Rule.flag_reason_template old <> None ->
      Rule.flag_reason_template r <> None)
  /\ (Rule.category old <> None -> Rule.category r <> None).
Proof.
  intros Hold H.
  destruct (update_found rid u data st old Hold) as (d & Hu).
  rewrite Hu in H.
  assert (Hr : r = apply_update old data u) by congruence.
  assert (Hst : st' = snd (_create_version (apply_update old data u) u d
                             (write_rule (apply_update old data u) st)))
    by congruence.
  clear H Hu. subst r st'.
  pose proof (get_by_id_id _ _ _ Hold) as [Hid Hin].
  split.
  { rewrite get_by_id_create_version.
    now apply (get_by_id_write_rule rid st old). }
  do 4 (split; [reflexivity|]).
  split.
  { change (map Rule.id (rules (write_rule (apply_update old data u) st))
            = map Rule.id (rules st)).
    apply write_rule_ids. }
  split.
  { intros rid' Hne. rewrite get_by_id_create_version.
    apply get_by_id_other_write. cbn. congruence. }
  cbn.
  repeat split;
    match goal with
    | |- updated ?o _ _ => destruct o; reflexivity
    | |- updated_opt ?o _ _ => destruct o; reflexivity
    | |- _ -> or_keep ?o _ <> None => destruct o; cbn; congruence
    end.
Qed.

Lemma update_keeps_identity_witness :
  let r := apply_update lapsed (rename_to "Renamed") 7%N in
  Rule.rule_code r = "LAPSED"
  /\ Rule.effective_to r = Some 1800000000
  /\ Rule.tags r = [].
Proof.
  destruct (update_keeps_identity 2%N (rename_to "Renamed") 7%N
              with_lapsed
              (snd (update 2%N (rename_to "Renamed") 7%N with_lapsed))
              lapsed
              (apply_update lapsed (rename_to "Renamed") 7%N)
              eq_refl eq_refl)
    as (_ & _ & Hc & _ & _ & _ & _ & _ & _ & _ & _ & _ & _ & _ & _ & Ht
        & _ & _ & _ & Hg & _).
  split; [exact Hc|]. split; [exact Ht|exact Hg].
Defined.

(** [delete] on a rule that exists removes that rule and its versions and
    touches nothing else: every other rule and its versions are found as
    before; and in a table where codes are unique the code of the deleted
    rule is free again, so that the duplicate check of [create_rule] no
    longer stops a request for it. *)
Theorem delete_only_that_rule
    (st : Store) (rid : UUID) (old : Rule.t) :
  let st' := snd (delete rid st) in
  get_by_id rid st = Some old ->
  get_by_id rid st' = None
  /\ versions_of rid st' = []
  /\ (forall rid', rid' <> rid ->
        get_by_id rid' st' = get_by_id rid' st
        /\ versions_of rid' st' = versions_of rid' st)
  /\ (NoDup (map Rule.rule_code (rules st)) ->
      get_by_code (Rule.rule_code old) st' = None
      /\ forall data,
           RuleCreate.rule_code data = Rule.rule_code old ->
           fst (create_rule data admin st')
           <> HTTPException 400 "Rule code already exists").
Proof.
  intros st' Hold. subst st'.
  destruct (delete_is_hard rid st old Hold) as (_ & Hgone & Hvers).
  pose proof (get_by_id_id _ _ _ Hold) as [Hid Hin].
  split; [exact Hgone|]. split; [exact Hvers|]. split.
  - intros rid' Hne. unfold delete. rewrite Hold. cbn. split.
    + unfold get_by_id. cbn. apply find_filter_other.
      intros a Ha. apply N.eqb_eq in Ha. apply negb_true_iff, N.eqb_neq.
      congruence.
    + unfold versions_of. cbn. apply filter_negb_other.
      intros a Ha. apply N.eqb_eq in Ha. apply negb_true_iff, N.eqb_neq.
      congruence.
  - intros Hc.
    assert (Hfree : get_by_code (Rule.rule_code old) (snd (delete rid st))
                    = None).
    { unfold delete. rewrite Hold. unfold get_by_code. cbn.
      destruct (find _ _) as [x|] eqn:F; [|reflexivity].
      apply find_some in F as [Hx Hxc]. apply filter_In in Hx as [Hx Hne].
      apply String.eqb_eq in Hxc.
      pose proof (get_by_code_In st x Hc Hx) as H1.
      pose proof (get_by_code_In st old Hc Hin) as H2.
      rewrite Hxc in H1. assert (x = old) by congruence. subst x.
      rewrite N.eqb_refl in Hne. discriminate. }
    split; [exact Hfree|].
    intros data Hsame. unfold create_rule. cbn. rewrite Hsame, Hfree.
    cbn. discriminate.
Qed.

Lemma delete_only_that_rule_witness :
  get_by_id 0%N (snd (delete 0%N with_lapsed)) = None
  /\ get_by_id 2%N (snd (delete 0%N with_lapsed)) = Some lapsed
  /\ versions_of 2%N (snd (delete 0%N with_lapsed))
     = [first_version 3%N lapsed].
Proof.
  destruct (delete_only_that_rule with_lapsed 0%N high_amount_rule eq_refl)
    as (Hg & _ & Ho & _).
  split; [exact Hg|].
  destruct (Ho 2%N ltac:(discriminate)) as [H1 H2].
  split; [rewrite H1|rewrite H2]; reflexivity.
Defined.

(** ** Generated codes *)

(** A code made by [_generate_rule_code] starts with the prefix of the
    rule type and a dash and has at least eight characters, whatever the
    table holds. *)
Theorem generated_code_shape (ty : RuleType) (st : Store) :
  String.prefix (prefix_map ty ++ "-") (_generate_rule_code ty st) = true
  /\ (8 <= String.length (_generate_rule_code ty st))%nat.
Proof.
  split.
  - unfold _generate_rule_code.
    destruct ty; cbn [prefix_map];
      match goal with
      | |- String.prefix (?p ++ "-") (?p ++ "-" ++ ?z) = true =>
          apply (prefix_append (p ++ "-") z)
      end.
  - unfold _generate_rule_code.
    rewrite !append_length.
    pose proof (zfill_length 4
                  (str_of_N (N.of_nat (List.length
                     (filter (fun r => String.prefix (prefix_map ty ++ "-")
                                         (Rule.rule_code r)) (rules st)))
                             + 1))) as Hz.
    destruct ty; cbn [prefix_map String.length] in *; lia.
Qed.

(** ** Who may write *)

(** Requests to [create_rule] and [update_rule] from users who are not
    admins leave the store exactly as it was, however many there are and
    whatever they ask for. *)
Theorem non_admin_requests_change_nothing
    (rqs : list request) (st : Store) :
  Forall (fun rq => is_admin (sender rq) = false) rqs ->
  fold_left serve rqs st = st.
Proof.
  induction 1 as [|rq rqs Hrq _ IH]; [reflexivity|].
  cbn [fold_left].
  assert (Hs : serve st rq = st).
  { destruct rq as [user data|user rid data]; cbn in Hrq |- *.
    - unfold create_rule. now rewrite Hrq.
    - unfold update_rule. now rewrite Hrq. }
  now rewrite Hs.
Qed.

Lemma non_admin_requests_change_nothing_witness :
  fold_left serve
    [PostRule provider high_amount;
     PutRule provider 0%N (rename_to "Taken over")] seeded
  = seeded.
Proof.
  apply (non_admin_requests_change_nothing
           [PostRule provider high_amount;
            PutRule provider 0%N (rename_to "Taken over")] seeded).
  repeat constructor.
Defined.

(** ** Listing *)

Section Pages.

Variable order_by : string -> bool -> res (list Rule.t -> list Rule.t).
Variables (ty : option RuleType) (act : option bool) (cat : option string).
Variables (sort_by sort_order : string) (st : Store).

Let rows := filter (listed ty act cat) (rules st).

Lemma list_rules_fails (e : exn) (page page_size : Z) :
  order_by sort_by (sort_order =? "desc")%string = Raise e ->
  list_rules order_by ty act cat page page_size sort_by sort_order st
  = Failed e.
Proof. intros H. unfold list_rules, list_. now rewrite H. Qed.

Variable sort : list Rule.t -> list Rule.t.
Hypothesis resolved :
  order_by sort_by (sort_order =? "desc")%string = Ok sort.
Hypothesis sort_perm : forall l, Permutation (sort l) l.

Lemma sorted_length : List.length (sort rows) = List.length rows.
Proof. apply Permutation_length, sort_perm. Qed.

Lemma list_rules_valid (page page_size : Z) :
  1 <= page -> 0 <= page_size ->
  list_rules order_by ty act cat page page_size sort_by sort_order st =
    Rows (firstn (Z.to_nat page_size)
            (skipn (Z.to_nat ((page - 1) * page_size)) (sort rows)),
          {| PaginationMeta.page := page;
             PaginationMeta.page_size := page_size;
             PaginationMeta.total_items := Z.of_nat (List.length rows);
             PaginationMeta.total_pages :=
               (Z.of_nat (List.length rows) + page_size - 1) / page_size;
             PaginationMeta.has_next :=
               page <? (Z.of_nat (List.length rows) + page_size - 1)
                       / page_size;
             PaginationMeta.has_prev := page >? 1 |}).
Proof.
  intros Hp Hs. unfold list_rules, list_. rewrite resolved.
  assert (H1 : ((page - 1) * page_size <? 0) = false)
    by (apply Z.ltb_ge; nia).
  assert (H2 : (page_size <? 0) = false) by (apply Z.ltb_ge; lia).
  rewrite H1, H2. reflexivity.
Qed.

Lemma ceil_le (t s k : Z) :
  1 <= s -> ((t + s - 1) / s <= k <-> t <= k * s).
Proof.
  intros Hs.
  pose proof (Z.div_mod (t + s - 1) s ltac:(lia)) as Hd.
  pose proof (Z.mod_pos_bound (t + s - 1) s ltac:(lia)) as Hm.
  set (q := (t + s - 1) / s) in *. set (r := (t + s - 1) mod s) in *.
  split; intros H.
  - assert (s * q <= s * k) by (apply Z.mul_le_mono_nonneg_l; lia). lia.
  - destruct (Z_le_gt_dec q k) as [|Hgt]; [assumption|].
    assert (s * (k + 1) <= s * q) by (apply Z.mul_le_mono_nonneg_l; lia).
    lia.
Qed.

Lemma page_empty_iff {A : Type} (l : list A) (n o : nat) :
  (1 <= n)%nat ->
  firstn n (skipn o l) = [] <-> (List.length l <= o)%nat.
Proof.
  intros Hn. split; intros H.
  - pose proof (length_skipn o l) as Hl.
    destruct (skipn o l) as [|x m] eqn:E; [cbn in Hl; lia|].
    destruct n; [lia|discriminate].
  - rewrite skipn_all2 by exact H. apply firstn_nil.
Qed.

Lemma In_page (r : Rule.t) (n o : nat) :
  In r (firstn n (skipn o (sort rows))) ->
  In r (rules st) /\ listed ty act cat r = true.
Proof.
  intros H. apply filter_In. fold rows.
  eapply Permutation_in; [apply (sort_perm rows)|].
  rewrite <- (firstn_skipn o (sort rows)). apply in_or_app. right.
  rewrite <- (firstn_skipn n (skipn o (sort rows))). apply in_or_app.
  now left.
Qed.

(** One page of the listing. *)
Lemma list_rules_page_in_section (page page_size : Z) :
  1 <= page -> 1 <= page_size ->
  exists data meta,
    list_rules order_by ty act cat page page_size sort_by sort_order st
    = Rows (data, meta)
    /\ PaginationMeta.total_items meta = Z.of_nat (List.length rows)
    /\ List.length data
       = Nat.min (Z.to_nat page_size)
           (List.length rows - Z.to_nat ((page - 1) * page_size))
    /\ (forall r, In r data ->
                  In r (rules st) /\ listed ty act cat r = true)
    /\ PaginationMeta.total_items meta
       <= PaginationMeta.total_pages meta * page_size
       < PaginationMeta.total_items meta + page_size
    /\ (data = [] <-> PaginationMeta.total_pages meta < page)
    /\ (PaginationMeta.has_next meta = true <->
        page * page_size < PaginationMeta.total_items meta)
    /\ (PaginationMeta.has_prev meta = true <-> 1 < page).
Proof.
  intros Hp Hs. eexists. eexists.
  split; [apply list_rules_valid; lia|]. cbn.
  set (T := Z.of_nat (List.length rows)).
  set (P := (T + page_size - 1) / page_size).
  split; [reflexivity|]. split.
  { rewrite length_firstn, length_skipn, sorted_length. reflexivity. }
  split; [intros r; apply In_page|]. split.
  - pose proof (proj1 (ceil_le T page_size P Hs) (Z.le_refl _)) as H1.
    assert (H2 : ~ T <= (P - 1) * page_size).
    { intros H. apply (ceil_le T page_size (P - 1) Hs) in H. fold P in H. lia. }
    lia.
  - split; [|split].
    + rewrite page_empty_iff by lia. rewrite sorted_length.
      assert (Hc : P <= page - 1 <-> T <= (page - 1) * page_size)
        by (apply ceil_le; lia).
      unfold T in *. split; intros H.
      * apply Nat2Z.inj_le in H. rewrite Z2Nat.id in H by nia. lia.
      * apply Nat2Z.inj_le. rewrite Z2Nat.id by nia. lia.
    + rewrite Z.ltb_lt.
      assert (Hc : P <= page <-> T <= page * page_size)
        by (apply ceil_le; lia).
      lia.
    + rewrite Z.gtb_ltb, Z.ltb_lt. reflexivity.
Qed.

End Pages.

(** For [page >= 1] and [page_size >= 1]: when the sort attribute has no
    [asc]/[desc], the exception leaves [list_rules]; otherwise, in
    whatever order the database returns the rows, [list_rules] answers
    with rules that are stored and pass the filters, as many as the page
    size allows and the rows beyond the offset suffice for;
    [total_items] counts the rules passing the filters, on all pages;
    [total_pages] is that count divided by the page size and rounded up;
    the page is empty exactly when it lies beyond the last page;
    [has_next] says exactly whether rows remain beyond this page, and
    [has_prev] whether the page is not the first. *)
Theorem list_rules_page
    (order_by : string -> bool -> res (list Rule.t -> list Rule.t))
    (ty : option RuleType) (act : option bool) (cat : option string)
    (sort_by sort_order : string) (st : Store) (page page_size : Z) :
  1 <= page -> 1 <= page_size ->
  (forall e,
      order_by sort_by (sort_order =? "desc")%string = Raise e ->
      list_rules order_by ty act cat page page_size sort_by sort_order st
      = Failed e)
  /\ (forall sort,
        order_by sort_by (sort_order =? "desc")%string = Ok sort ->
        (forall l, Permutation (sort l) l) ->
        exists data meta,
          list_rules order_by ty act cat page page_size sort_by sort_order st
          = Rows (data, meta)
          /\ PaginationMeta.total_items meta
             = Z.of_nat (List.length (filter (listed ty act cat) (rules st)))
          /\ List.length data
             = Nat.min (Z.to_nat page_size)
                 (List.length (filter (listed ty act cat) (rules st))
                  - Z.to_nat ((page - 1) * page_size))
          /\ (forall r, In r data ->
                        In r (rules st) /\ listed ty act cat r = true)
          /\ PaginationMeta.total_items meta
             <= PaginationMeta.total_pages meta * page_size
             < PaginationMeta.total_items meta + page_size
          /\ (data = [] <-> PaginationMeta.total_pages meta < page)
          /\ (PaginationMeta.has_next meta = true <->
              page * page_size < PaginationMeta.total_items meta)
          /\ (PaginationMeta.has_prev meta = true <-> 1 < page)).
Proof.
  intros Hp Hs. split.
  - intros e He. now apply list_rules_fails.
  - intros sort Hsort Hperm.
    exact (list_rules_page_in_section order_by ty act cat sort_by sort_order
             st sort Hsort Hperm page page_size Hp Hs).
Qed.

Lemma list_rules_page_witness :
  list_rules by_priority_only None None None 1 2 "__tablename__" "asc"
             three_rules = Failed AttributeError
  /\ exists data meta,
       list_rules by_priority_only None None None 1 2 "priority" "asc"
                  three_rules = Rows (data, meta)
       /\ PaginationMeta.total_items meta = 3
       /\ List.length data = 2%nat
       /\ (PaginationMeta.has_next meta = true <-> 1 * 2 < 3).
Proof.
  split.
  - exact (proj1 (list_rules_page by_priority_only None None None
                    "__tablename__" "asc" three_rules 1 2
                    ltac:(lia) ltac:(lia))
             AttributeError eq_refl).
  - destruct (proj2 (list_rules_page by_priority_only None None None
                       "priority" "asc" three_rules 1 2
                       ltac:(lia) ltac:(lia))
                order_by_priority eq_refl order_by_priority_perm)
      as (data & meta & Hl & Ht & Hn & _ & _ & _ & Hx & _).
    exists data, meta. split; [exact Hl|]. split; [exact Ht|].
    split; [exact Hn|]. rewrite Ht in Hx. exact Hx.
Defined.

(** ** When a comparison raises, and when a creation is refused *)

(** A comparison raises in three situations only: the entry is not a
    dict; its field is a list or a dict, which cannot be a key; or its
    operator is one of [greater_than], [less_than], [contains], [in] and
    the context holds a value Python takes for true.  So [equals],
    [not_equals] and unknown operators never raise on a usable field, and
    the four others never raise on a missing, zero or empty value. *)
Theorem comparison_raises_only_if (x : value) (ctx : context) (e : exn) :
  evaluate_comparison x ctx = Raise e ->
  (e = AttributeError /\ forall entry, x <> VDict entry)
  \/ exists entry,
       x = VDict entry
       /\ ((e = TypeError
            /\ hashable (or_default (lookup "field" entry) VNone) = false)
           \/ exists op cv,
                lookup "operator" entry = Some (VStr op)
                /\ In op ["greater_than"; "less_than"; "contains"; "in"]
                /\ context_get ctx (or_default (lookup "field" entry) VNone)
                   = Ok cv
                /\ truthy cv = true).
Proof.
  intros H.
  destruct x as [| b | z | s | l | d];
    try (left; cbn in H; split; [congruence|intros entry; discriminate]).
  right. exists d. split; [reflexivity|].
  unfold evaluate_comparison, get in H. cbn [bind] in H.
  fold (or_default (lookup "field" d) VNone) in H.
  destruct (context_get ctx (or_default (lookup "field" d) VNone))
    as [cv|e'] eqn:Hcv.
  2:{ left. cbn [bind] in H.
      destruct (or_default (lookup "field" d) VNone); cbn in Hcv |- *;
        try discriminate; split; congruence. }
  right. cbn [bind] in H.
  destruct (lookup "operator" d) as [[| b | z | op | l | d']|] eqn:Ho;
    try (cbn in H; discriminate).
  exists op, cv. split; [reflexivity|].
  cbn [is_str] in H.
  destruct (op =? "equals")%string; [discriminate|].
  destruct (op =? "not_equals")%string; [discriminate|].
  destruct (op =? "greater_than")%string eqn:E1.
  { apply String.eqb_eq in E1. subst op.
    destruct (truthy cv); [|discriminate]. cbn. tauto. }
  destruct (op =? "less_than")%string eqn:E2.
  { apply String.eqb_eq in E2. subst op.
    destruct (truthy cv); [|discriminate]. cbn. tauto. }
  destruct (op =? "contains")%string eqn:E3.
  { apply String.eqb_eq in E3. subst op.
    destruct (truthy cv); [|discriminate]. cbn. tauto. }
  destruct (op =? "in")%string eqn:E4; [|discriminate].
  apply String.eqb_eq in E4. subst op.
  destruct (truthy cv); [|discriminate]. cbn. tauto.
Qed.

Lemma comparison_raises_only_if_witness :
  exists op cv,
    lookup "operator"
      [("field", VStr "amount"); ("operator", VStr "greater_than");
       ("value", VStr "high")] = Some (VStr op)
    /\ context_get large_ab_claim (VStr "amount") = Ok cv
    /\ truthy cv = true.
Proof.
  destruct (comparison_raises_only_if
              (VDict [("field", VStr "amount");
                      ("operator", VStr "greater_than");
                      ("value", VStr "high")])
              large_ab_claim TypeError eq_refl)
    as [[_ Hnd]|(entry & Hx & [[_ Hh]|(op & cv & Ho & _ & Hc & Ht)])].
  - exfalso. exact (Hnd _ eq_refl).
  - exfalso. inversion Hx. subst entry. discriminate Hh.
  - inversion Hx. subst entry. exists op, cv. repeat split; assumption.
Defined.

(** [create_rule] never stores a rule and never changes the table: a
    user who is not an admin gets the 403, an admin asking for a code that
    is stored gets the 400, and for an admin asking for a new code the
    call of [RuleService.create] ends in the [AttributeError] of
    [data.is_active], which the endpoint does not catch. *)
Theorem create_rule_admin_outcomes
    (data : RuleCreate.t) (user : User) (st : Store) :
  snd (create_rule data user st) = st
  /\ fst (create_rule data user st) =
       (if is_admin user
        then match get_by_code (RuleCreate.rule_code data) st with
             | Some _ => HTTPException 400 "Rule code already exists"
             | None => Unhandled AttributeError
             end
        else HTTPException 403 "Admin access required")
  /\ get_by_code (RuleCreate.rule_code data) (snd (create_rule data user st))
     = get_by_code (RuleCreate.rule_code data) st.
Proof.
  unfold create_rule. rewrite create_raises.
  destruct (is_admin user); cbn.
  - destruct (get_by_code (RuleCreate.rule_code data) st) eqn:Hc; cbn;
      rewrite ?Hc; repeat split; reflexivity.
  - repeat split; reflexivity.
Qed.

(** ** Version numbers in a populated table *)

(** From a table in which the versions of each rule carry, in the order
    they were written, the numbers 1, 2, ..., n, every series of service
    calls leads to a table of the same kind: per rule the numbers are
    strictly increasing, without a gap and without a repetition.  An
    update of a rule that exists appends the current maximum plus one to
    that rule's numbers, and the maximum is the number of its versions. *)
Theorem version_numbers_stay_gapless (st0 : Store) (ops : list op) :
  wf st0 ->
  let st := run ops st0 in
  (forall rid,
      version_numbers rid st = numbered (List.length (versions_of rid st))
      /\ StronglySorted Z.lt (version_numbers rid st)
      /\ NoDup (version_numbers rid st))
  /\ (forall rid data u r st',
        update rid data u st = (Some r, st') ->
        version_numbers rid st' =
          (version_numbers rid st ++ [max_version rid st + 1])%list
        /\ max_version rid st = Z.of_nat (List.length (versions_of rid st))
        /\ forall rid', rid' <> rid ->
             version_numbers rid' st' = version_numbers rid' st).
Proof.
  intros Hwf0 st. assert (Hwf : wf st) by now apply run_wf.
  split.
  - intros rid. rewrite (wf_numbers st Hwf rid).
    split; [reflexivity|]. split.
    + apply numbered_increasing.
    + apply numbered_NoDup.
  - intros rid data u r st' H.
    destruct (get_by_id rid st) as [old|] eqn:Hold.
    2:{ unfold update in H. rewrite Hold in H. discriminate. }
    destruct (update_found rid u data st old Hold) as (d & Hu).
    rewrite Hu in H.
    assert (Hst : st' = snd (_create_version (apply_update old data u) u d
                               (write_rule (apply_update old data u) st)))
      by congruence.
    apply get_by_id_id in Hold as [Hid _].
    assert (Hrid : Rule.id (apply_update old data u) = rid) by exact Hid.
    split; [|split].
    + rewrite Hst. rewrite <- Hrid at 1. rewrite create_version_numbers.
      rewrite Hrid. reflexivity.
    + apply max_version_numbered, (wf_numbers st Hwf).
    + intros rid' Hne. rewrite Hst. unfold version_numbers.
      rewrite versions_of_other by congruence. reflexivity.
Qed.

Lemma version_numbers_stay_gapless_witness :
  version_numbers 0%N
    (snd (update 0%N (rename_and_retire "Retired") 7%N
            (run [Update 0%N (rename_to "Large amount") 7%N] seeded)))
  = [1; 2; 3].
Proof.
  exact (proj1 (proj2 (version_numbers_stay_gapless seeded
                  [Update 0%N (rename_to "Large amount") 7%N] seeded_wf)
    0%N (rename_and_retire "Retired") 7%N
    (apply_update
       (apply_update high_amount_rule (rename_to "Large amount") 7%N)
       (rename_and_retire "Retired") 7%N)
    (snd (update 0%N (rename_and_retire "Retired") 7%N
            (run [Update 0%N (rename_to "Large amount") 7%N] seeded)))
    eq_refl)).
Defined.
